(** * benchmark_plot.py: log matchers, log parser and grid builder

    A shallow embedding of [benchmark_plot.py].  The script classifies the
    lines of a benchmark log with two regular expressions, groups the runtime
    samples under the header that precedes them, and fills a 9 x 9 grid with
    the rounded geometric mean of every group.

    Conventions of the embedding:
    - a Python [str] is a list of characters [chr]: a code point below 256,
      or a code point from 256 on together with the two properties of it
      that the script depends on, as the Unicode database of the interpreter
      gives them (its value as a decimal digit, if it is one, and whether it
      is white space);
    - a Python [int] is a [Z], a Python [float] is a binary64 [float];
      [int] of a string is the one of CPython 3.11 and later, which refuses
      more than 4300 digits;
    - a call that may raise returns a [res]: [Ok v] or [Raise e];
    - [re.match] is a backtracking matcher over the fragment of the pattern
      syntax that the three patterns of the script use. *)

From Stdlib Require Import ZArith List Ascii String Bool Lia Permutation.
From Stdlib Require Import Floats.PrimFloat Floats.SpecFloat Floats.FloatOps.
Import ListNotations.

Set Implicit Arguments.

(** ** Strings *)

(** A character: [Latin a] is the code point of [a], below 256;
    [Wide cp decimal space] is the code point [cp], from 256 on, where
    [decimal] is its value when it is a decimal digit (category Nd: the
    class [\d] and [float] accept it, the class [[0-9]] and [int] of a
    group of the header do not see it) and [space] says whether
    [str.isspace] holds of it.  No pattern of the script names a character
    from 256 on. *)
Inductive chr : Type :=
| Latin (a : ascii)
| Wide (cp : N) (decimal : option nat) (space : bool).

Definition str := list chr.

Fixpoint chars (x : string) : str :=
  match x with
  | EmptyString => []
  | String a x' => Latin a :: chars x'
  end.

Definition newline : chr := Latin "010".

Definition chr_eqb (a b : chr) : bool :=
  match a, b with
  | Latin x, Latin y => Ascii.eqb x y
  | Wide c d s, Wide c' d' s' =>
      N.eqb c c'
      && match d, d' with
         | Some n, Some n' => Nat.eqb n n'
         | None, None => true
         | _, _ => false
         end
      && Bool.eqb s s'
  | _, _ => false
  end.

(** A class of code points below 256, as a class of characters. *)
Definition latin (f : ascii -> bool) (a : chr) : bool :=
  match a with
  | Latin x => f x
  | Wide _ _ _ => false
  end.

(** [[0-9]] *)
Definition is_digit (a : ascii) : bool :=
  ((48 <=? nat_of_ascii a) && (nat_of_ascii a <=? 57))%nat.

(** [\d]: a decimal digit of any script. *)
Definition is_decimal (a : chr) : bool :=
  match a with
  | Latin x => is_digit x
  | Wide _ (Some _) _ => true
  | Wide _ None _ => false
  end.

(** The value of a decimal digit. *)
Definition digit_value (a : chr) : Z :=
  match a with
  | Latin x => Z.of_nat (nat_of_ascii x - 48)
  | Wide _ (Some n) _ => Z.of_nat n
  | Wide _ None _ => 0
  end.

(** [str.isspace] *)
Definition is_space (a : chr) : bool :=
  match a with
  | Latin x =>
      let n := nat_of_ascii x in
      ((9 <=? n) && (n <=? 13) || (28 <=? n) && (n <=? 32)
       || (n =? 133) || (n =? 160))%nat
  | Wide _ _ space => space
  end.

Fixpoint lstrip (s : str) : str :=
  match s with
  | a :: s' => if is_space a then lstrip s' else s
  | [] => []
  end.

(** [line.strip()] *)
Definition strip (s : str) : str := rev (lstrip (rev (lstrip s))).

(** [s] without its prefix [l], when it starts with [l]. *)
Fixpoint strip_prefix (l s : str) : option str :=
  match l, s with
  | [], _ => Some s
  | a :: l', b :: s' => if chr_eqb a b then strip_prefix l' s' else None
  | _ :: _, [] => None
  end.

(** [needle in hay] *)
Fixpoint occurs (needle hay : str) : bool :=
  match strip_prefix needle hay with
  | Some _ => true
  | None => match hay with
            | [] => false
            | _ :: hay' => occurs needle hay'
            end
  end.

(** ** Exceptions and results *)

Inductive exn : Type :=
| ValueError_invalid_literal (s : str)
    (* int() / float() on a string that is not a number *)
| ValueError_digit_limit (digits : nat)
    (* int(): "Exceeds the limit (4300 digits) for integer string
       conversion: value has <digits> digits" *)
| ValueError_invalid_log_file (filename : str)
    (* ValueError(f"Invalid log file {filename}") *)
| ValueError_not_in_list (v : Z)
    (* list.index: "<v> is not in list" *)
| TypeError
| IndexError
| ZeroDivisionError.

Inductive res (A : Type) : Type :=
| Ok (a : A)
| Raise (e : exn).

Arguments Ok {A} a.
Arguments Raise {A} e.

Definition bind {A B} (x : res A) (f : A -> res B) : res B :=
  match x with
  | Ok a => f a
  | Raise e => Raise e
  end.

Notation "x <- e1 ;; e2" := (bind e1 (fun x => e2))
  (at level 61, e1 at next level, right associativity).

(** ** Regular expressions

    The fragment used by the script: literals, single-character classes,
    greedy [*] and [+] over a class, the greedy optional group [(?:r)?],
    concatenation, numbered capture groups and [$].  The leading [^] of the
    three patterns is implied by [re.match], which only matches at the start
    of the string. *)

Inductive cls : Type :=
| Dot                (* .      any character but a newline *)
| Digit              (* [0-9] *)
| Decimal            (* \d     a decimal digit of any script *)
| Ch (c : ascii).    (* a literal character *)

Definition cls_ok (p : cls) (a : chr) : bool :=
  match p with
  | Dot => negb (chr_eqb a newline)
  | Digit => latin is_digit a
  | Decimal => is_decimal a
  | Ch c => chr_eqb a (Latin c)
  end.

Inductive re : Type :=
| Lit (l : str)
| Star (p : cls)
| Plus (p : cls)
| Opt (r : re)
| Seq (r1 r2 : re)
| Group (n : nat) (r : re)
| Eol.

Declare Scope re_scope.
Delimit Scope re_scope with re.
Bind Scope re_scope with re.
Notation "r1 ;; r2" := (Seq r1 r2) (at level 61, right associativity) : re_scope.

Definition caps := list (nat * str).

(** [m.group(n)]: [None] when the group took no part in the match. *)
Fixpoint group (n : nat) (c : caps) : option str :=
  match c with
  | [] => None
  | (i, g) :: c' => if Nat.eqb i n then Some g else group n c'
  end.

Section Matcher.

Variable R : Type.

(** Greedy repetition of one class: the longest run first, then shorter
    ones while the continuation fails. *)
Fixpoint star (p : cls) (s : str) (k : str -> option R) : option R :=
  match s with
  | a :: s' =>
      if cls_ok p a
      then match star p s' k with
           | Some x => Some x
           | None => k s
           end
      else k s
  | [] => k []
  end.

Fixpoint run (r : re) (s : str) (c : caps)
         (k : str -> caps -> option R) : option R :=
  match r with
  | Lit l =>
      match strip_prefix l s with
      | Some s' => k s' c
      | None => None
      end
  | Star p => star p s (fun s' => k s' c)
  | Plus p =>
      match s with
      | a :: s' => if cls_ok p a then star p s' (fun s'' => k s'' c) else None
      | [] => None
      end
  | Opt r1 =>
      match run r1 s c k with
      | Some x => Some x
      | None => k s c
      end
  | Seq r1 r2 => run r1 s c (fun s' c' => run r2 s' c' k)
  | Group n r1 =>
      run r1 s c
          (fun s' c' =>
             k s' ((n, firstn (List.length s - List.length s') s) :: c'))
  | Eol =>
      match s with
      | [] => k s c
      | [a] => if chr_eqb a newline then k s c else None
      | _ => None
      end
  end.

End Matcher.

(** [re.match(pattern, s)]: the captures of the first match in backtracking
    order, anchored at the start of [s]. *)
Definition re_match (pattern : re) (s : str) : option caps :=
  run pattern s [] (fun _ c => Some c).

(** What a pattern can match: [denot r u v c c'] says that [r] matches [u]
    when [v] follows, turning the captures [c] into [c']. *)
Fixpoint denot (r : re) (u v : str) (c c' : caps) : Prop :=
  match r with
  | Lit l => u = l /\ c' = c
  | Star p => forallb (cls_ok p) u = true /\ c' = c
  | Plus p => u <> [] /\ forallb (cls_ok p) u = true /\ c' = c
  | Opt r1 => (u = [] /\ c' = c) \/ denot r1 u v c c'
  | Seq r1 r2 =>
      exists u1 u2 c1,
        u = u1 ++ u2 /\ denot r1 u1 (u2 ++ v) c c1 /\ denot r2 u2 v c1 c'
  | Group n r1 => exists c0, denot r1 u v c c0 /\ c' = (n, u) :: c0
  | Eol => u = [] /\ (v = [] \/ v = [newline]) /\ c' = c
  end.

(** ** The three patterns *)

Open Scope re_scope.

(** r"^# OPEN3D_PARFOR_BLOCK: ([0-9]+), OPEN3D_PARFOR_THREAD: ([0-9]+)" *)
Definition header_prefix : str := chars "# OPEN3D_PARFOR_BLOCK: ".
Definition header_middle : str := chars ", OPEN3D_PARFOR_THREAD: ".

Definition header_pattern : re :=
  Lit header_prefix ;; Group 1 (Plus Digit) ;;
  Lit header_middle ;; Group 2 (Plus Digit).

(** r"^.* +(\d+(?:\.\d+)?) ms +.*ms +([0-9]+)$" *)
Definition runtime_pattern : re :=
  Star Dot ;; Plus (Ch " ") ;;
  Group 1 (Plus Decimal ;; Opt (Lit (chars ".") ;; Plus Decimal)) ;;
  Lit (chars " ms") ;; Plus (Ch " ") ;; Star Dot ;; Lit (chars "ms") ;;
  Plus (Ch " ") ;; Group 2 (Plus Digit) ;; Eol.

(** r"^(.*_CPU).*$" *)
Definition cpu_pattern : re :=
  Group 1 (Star Dot ;; Lit (chars "_CPU")) ;; Star Dot ;; Eol.

Close Scope re_scope.

(** ** int() and float() on the captured groups *)

Fixpoint digits_value (acc : Z) (s : str) : Z :=
  match s with
  | [] => acc
  | a :: s' => digits_value (10 * acc + digit_value a) s'
  end.

(** One digit 0 to 9 or more. *)
Definition all_digits (s : str) : bool :=
  match s with
  | [] => false
  | _ :: _ => forallb (latin is_digit) s
  end.

(** One decimal digit of any script or more. *)
Definition all_decimals (s : str) : bool :=
  match s with
  | [] => false
  | _ :: _ => forallb is_decimal s
  end.

(** [sys.get_int_max_str_digits()], which the script never changes. *)
Definition int_max_str_digits : nat := 4300.

(** [int(g)] for a captured group [g].  On a non-empty string of at most
    4300 digits 0 to 9 it is the number they spell; on a longer string of
    digits (leading zeros count) it raises the [ValueError] of the digit
    limit; every other string is taken to raise [ValueError] (Python accepts
    a few more spellings, such as a sign or the digits of other scripts, so
    there the embedding can only raise more often than the script; the
    groups of the header pattern only hold digits 0 to 9). *)
Definition py_int (g : option str) : res Z :=
  match g with
  | None => Raise TypeError
  | Some s =>
      if all_digits s
      then if Nat.leb (List.length s) int_max_str_digits
           then Ok (digits_value 0 s)
           else Raise (ValueError_digit_limit (List.length s))
      else Raise (ValueError_invalid_literal s)
  end.

(** The binary64 number nearest to [m / 10^k] (ties to even), computed by the
    reference division of the standard library on exact integers. *)
Definition dec_float (m : Z) (k : nat) : float :=
  match m with
  | Zpos p =>
      SF2Prim (SFdiv prec emax (S754_finite false p 0)
                     (S754_finite false (Z.to_pos (10 ^ Z.of_nat k)) 0))
  | _ => 0%float
  end.

(** The longest prefix in a class, and the rest. *)
Fixpoint span (f : chr -> bool) (s : str) : str * str :=
  match s with
  | a :: s' =>
      if f a
      then let (d, rest) := span f s' in (a :: d, rest)
      else ([], s)
  | [] => ([], [])
  end.

(** [float(g)] for a captured group [g]: decimal digits of any script with
    an optional fraction, of any length ([float] has no digit limit); other
    strings are taken to raise [ValueError]. *)
Definition py_float (g : option str) : res float :=
  match g with
  | None => Raise TypeError
  | Some s =>
      match span is_decimal s with
      | ((_ :: _) as i, []) => Ok (dec_float (digits_value 0 i) 0)
      | ((_ :: _) as i, Latin "." :: f) =>
          if all_decimals f
          then Ok (dec_float (digits_value 0 (i ++ f)) (List.length f))
          else Raise (ValueError_invalid_literal s)
      | _ => Raise (ValueError_invalid_literal s)
      end
  end.

(** [x / y] on floats: Python raises on a zero divisor. *)
Definition float_div (x y : float) : res float :=
  if PrimFloat.eqb y 0 then Raise ZeroDivisionError else Ok (x / y)%float.

(** Truth value of a float in a condition: false exactly on zero. *)
Definition truthy (x : float) : bool := negb (PrimFloat.eqb x 0).

(** ** geo_mean

    [a.prod() ** (1.0 / len(a))].  The power of two floats is the [pow] of
    the C library, which binary64 arithmetic does not fix: it is a parameter
    of [geo_mean], as [scipy.stats.gmean] is one of the parser. *)




(** ** The line matchers and the prefix helper *)

Definition match_block_thread_size (line : str) : res (option (Z * Z)) :=
  match re_match header_pattern line with
  | Some m =>
      b <- py_int (group 1 m) ;;
      t <- py_int (group 2 m) ;;
      Ok (Some (b, t))
  | None => Ok None
  end.

Definition match_runtime (line : str) : res (option float) :=
  match re_match runtime_pattern line with
  | Some m =>
      x <- py_float (group 1 m) ;;
      n <- py_float (group 2 m) ;;
      q <- float_div x n ;;
      Ok (Some q)
  | None => Ok None
  end.

Definition extract_cpu_prefix (filename : str) : res (option str) :=
  match re_match cpu_pattern filename with
  | Some m => Ok (group 1 m)
  | None => Raise (ValueError_invalid_log_file filename)
  end.

(** ** The log parser *)

Record result (G : Type) : Type := mk_result {
  block_size : Z;
  thread_size : Z;
  gmean : G
}.

Section Parser.

(** [scipy.stats.gmean] is a library function: the parser is written over
    any aggregate of the sample list.  It does not raise (on an empty list
    scipy warns and returns nan). *)
Variable G : Type.
Variable scipy_gmean : list float -> G.

Record parser_state : Type := mk_state {
  current_block_thread_size : option (Z * Z);
  current_runtimes : list float;
  results : list (result G)
}.

Definition initial_state : parser_state := mk_state None [] [].

(** [results.append({...})] when a header is open ([if
    current_block_thread_size:], true on every pair). *)
Definition save (st : parser_state) : list (result G) :=
  match current_block_thread_size st with
  | Some (b, t) =>
      results st ++ [mk_result b t (scipy_gmean (current_runtimes st))]
  | None => results st
  end.

(** One turn of the loop over the lines: both matchers are called, then
    the header is tried first ([if num_thread:], true on every pair) and the
    runtime second ([elif runtime:], false on [None] and on zero). *)
Definition parse_line (st : parser_state) (line : str) : res parser_state :=
  num_thread <- match_block_thread_size line ;;
  runtime <- match_runtime line ;;
  match num_thread with
  | Some nt => Ok (mk_state (Some nt) [] (save st))
  | None =>
      match runtime with
      | Some r =>
          if truthy r
          then Ok (mk_state (current_block_thread_size st)
                            (current_runtimes st ++ [r]) (results st))
          else Ok st
      | None => Ok st
      end
  end.

Fixpoint parse_loop (st : parser_state) (lines : list str)
  : res parser_state :=
  match lines with
  | [] => Ok st
  | line :: lines' => st' <- parse_line st line ;; parse_loop st' lines'
  end.

(** The body of [parse_file] on lines already stripped. *)
Definition parse_lines (lines : list str) : res (list (result G)) :=
  st <- parse_loop initial_state lines ;;
  Ok (save st).

(** [parse_file] on the lines that [f.readlines()] returns. *)
Definition parse_file (raw : list str) : res (list (result G)) :=
  parse_lines (map strip raw).

End Parser.

(** ** The grid builder *)

Definition block_sizes : list Z := [1; 2; 4; 8; 16; 32; 64; 128; 256]%Z.
Definition thread_sizes : list Z := [1; 2; 4; 8; 16; 32; 64; 128; 256]%Z.

(** [l.index(v)] *)
Fixpoint find_index (v : Z) (l : list Z) : option nat :=
  match l with
  | [] => None
  | a :: l' =>
      if Z.eqb a v then Some O
      else match find_index v l' with
           | Some i => Some (S i)
           | None => None
           end
  end.

Definition py_index (l : list Z) (v : Z) : res nat :=
  match find_index v l with
  | Some i => Ok i
  | None => Raise (ValueError_not_in_list v)
  end.

Definition grid := list (list float).

Fixpoint set_nth {A} (l : list A) (i : nat) (v : A) : option (list A) :=
  match l, i with
  | [], _ => None
  | _ :: l', O => Some (v :: l')
  | a :: l', S i' =>
      match set_nth l' i' v with
      | Some l'' => Some (a :: l'')
      | None => None
      end
  end.

(** [runtimes[y, x] = v] *)
Definition set_cell (g : grid) (y x : nat) (v : float) : res grid :=
  match nth_error g y with
  | Some row =>
      match set_nth row x v with
      | Some row' =>
          match set_nth g y row' with
          | Some g' => Ok g'
          | None => Raise IndexError
          end
      | None => Raise IndexError
      end
  | None => Raise IndexError
  end.

Definition cell (g : grid) (y x : nat) : option float :=
  match nth_error g y with
  | Some row => nth_error row x
  | None => None
  end.

(** The integer nearest to [n / d] for [d > 0], ties to even. *)
Definition round_half_even (n d : Z) : Z :=
  let q := (n / d)%Z in
  let r := (n mod d)%Z in
  if (2 * r <? d)%Z then q
  else if (d <? 2 * r)%Z then (q + 1)%Z
  else if Z.even q then q else (q + 1)%Z.

(** [float("{:.2f}".format(x))]: [x] written with two decimals (the exact
    binary value rounded half to even) and read back as the nearest float. *)
Definition round_2f (x : float) : float :=
  match Prim2SF x with
  | S754_finite s m e =>
      let n := if (0 <=? e)%Z
               then (Zpos m * 2 ^ e * 100)%Z
               else round_half_even (Zpos m * 100) (2 ^ (- e)) in
      let y := dec_float n 2 in
      if s then (- y)%float else y
  | _ => x
  end.

(** [np.ones((len(block_sizes), len(thread_sizes))) * -1] *)
Definition initial_grid : grid :=
  repeat (repeat (1 * -1)%float (List.length thread_sizes))
         (List.length block_sizes).

Definition fill_state : Type := grid * list (Z * Z * nat * nat).

(** One turn of the loop that fills the grid; the second component collects
    what it prints. *)
Definition fill_step (st : fill_state) (r : result float) : res fill_state :=
  let '(runtimes, printed) := st in
  let runtime := round_2f (gmean r) in
  y <- py_index block_sizes (block_size r) ;;
  x <- py_index thread_sizes (thread_size r) ;;
  runtimes' <- set_cell runtimes y x runtime ;;
  Ok (runtimes', printed ++ [(block_size r, thread_size r, y, x)]).

Fixpoint fill_loop (st : fill_state) (rs : list (result float))
  : res fill_state :=
  match rs with
  | [] => Ok st
  | r :: rs' => st' <- fill_step st r ;; fill_loop st' rs'
  end.

Definition fill_grid (rs : list (result float)) : res fill_state :=
  fill_loop (initial_grid, []) rs.

(** * Vocabulary of the statements

    Shapes of strings, of lines and of grids that the statements below
    mention, and the sample inputs of the examples. *)

(** ** Shapes of strings *)

(** [s] is empty or starts with a character outside of [f]. *)
Definition not_next (f : chr -> bool) (s : str) : Prop :=
  match s with
  | [] => True
  | b :: _ => f b = false
  end.

(** [s] is empty or starts with a character outside of [f], a class of
    code points below 256. *)
Definition no_head (f : ascii -> bool) (s : str) : Prop :=
  match s with
  | [] => True
  | b :: _ => latin f b = false
  end.

Definition no_newline (s : str) : bool := forallb (cls_ok Dot) s.

(** One space or more. *)
Definition all_spaces (s : str) : bool :=
  match s with
  | [] => false
  | _ :: _ => forallb (cls_ok (Ch " ")) s
  end.

(** Nothing, or a dot and decimal digits. *)
Definition is_fraction (fr : str) : bool :=
  match fr with
  | [] => true
  | Latin "." :: d => all_decimals d
  | _ => false
  end.

Definition starts_ms (s : str) : bool :=
  match s with
  | Latin "m" :: Latin "s" :: _ => true
  | _ => false
  end.

(** The number of occurrences of "ms". *)
Fixpoint count_ms (s : str) : nat :=
  match s with
  | [] => 0
  | _ :: s' => (if starts_ms s then 1 else 0) + count_ms s'
  end.

Definition cpu_marker : str := chars "_CPU".

(** ** Pieces of the runtime pattern *)

(** \d+(?:\.\d+)? *)
Definition number_re : re :=
  (Plus Decimal ;; Opt (Lit (chars ".") ;; Plus Decimal))%re.

(** What follows the first " ms" *)
Definition runtime_rest : re :=
  (Plus (Ch " ") ;; Star Dot ;; Lit (chars "ms") ;;
   Plus (Ch " ") ;; Group 2 (Plus Digit) ;; Eol)%re.

(** What follows the first [.*] *)
Definition runtime_tail : re :=
  (Plus (Ch " ") ;; Group 1 number_re ;; Lit (chars " ms") ;; runtime_rest)%re.

(** The continuation of [re_match]. *)
Definition accept : str -> caps -> option caps := fun _ c => Some c.

(** ** Headers and the digit limit *)

(** At most 4300 characters. *)
Definition within_limit (s : str) : bool :=
  Nat.leb (List.length s) int_max_str_digits.

(** What the two runs of digits of a header give: the block size is
    converted first. *)
Definition header_result (db dt : str) : res (option (Z * Z)) :=
  if within_limit db
  then if within_limit dt
       then Ok (Some (digits_value 0 db, digits_value 0 dt))
       else Raise (ValueError_digit_limit (List.length dt))
  else Raise (ValueError_digit_limit (List.length db)).

(** The header pattern matches the line. *)
Definition matches_header (line : str) : bool :=
  match re_match header_pattern line with
  | Some _ => true
  | None => false
  end.

(** A header whose block size has 4301 digits. *)
Definition long_header : str :=
  header_prefix ++ repeat (Latin "1") 4301 ++ header_middle ++ chars "2".

(** ** Lines of a log *)

(** A line that starts with a header: the fixed prefix, digits, the fixed
    middle, digits, and anything after them. *)
Definition header_form (line : str) : Prop :=
  exists db dt rest,
    all_digits db = true /\ all_digits dt = true /\
    line = header_prefix ++ db ++ header_middle ++ dt ++ rest.

Definition is_header (line : str) : bool :=
  match match_block_thread_size line with
  | Ok (Some _) => true
  | _ => false
  end.

(** A runtime line: the runtime matcher returns a value on it. *)
Definition is_runtime_line (line : str) : bool :=
  match match_runtime line with
  | Ok (Some _) => true
  | _ => false
  end.

(** The header pairs of the lines, in order. *)
Definition header_of (line : str) : list (Z * Z) :=
  match match_block_thread_size line with
  | Ok (Some nt) => [nt]
  | _ => []
  end.

Definition headers (lines : list str) : list (Z * Z) :=
  flat_map header_of lines.

(** The lines without the runtime lines that come before the first header:
    the first line that the header pattern matches, whatever its numbers. *)
Fixpoint drop_early_runtimes (lines : list str) : list str :=
  match lines with
  | [] => []
  | l :: ls =>
      if matches_header l then lines
      else if is_runtime_line l then drop_early_runtimes ls
      else l :: drop_early_runtimes ls
  end.

(** ** States of the parser *)

Definition key (G : Type) (r : result G) : Z * Z :=
  (block_size r, thread_size r).

(** The headers a state has seen: those saved and the open one. *)
Definition seen (G : Type) (st : parser_state G) : list (Z * Z) :=
  map (@key G) (results st)
  ++ match current_block_thread_size st with
     | Some nt => [nt]
     | None => []
     end.

(** Two states that the rest of the run cannot tell apart: equal, or both
    without an open header and with the same saved records. *)
Definition same_output (G : Type) (st st' : parser_state G) : Prop :=
  st = st' \/
  (current_block_thread_size st = None /\
   current_block_thread_size st' = None /\
   results st = results st').

Definition res_rel (A : Type) (P : A -> A -> Prop) (x y : res A) : Prop :=
  match x, y with
  | Ok a, Ok b => P a b
  | Raise e, Raise e' => e = e'
  | _, _ => False
  end.

(** ** Grids and records *)

(** A grid of the shape the script allocates. *)
Definition grid_shape (g : grid) : Prop :=
  List.length g = List.length block_sizes /\
  Forall (fun row => List.length row = List.length thread_sizes) g.

(** A record whose two sizes are among the candidates. *)
Definition candidate_sizes (r : result float) : Prop :=
  In (block_size r) block_sizes /\ In (thread_size r) thread_sizes.

(** ** Sample inputs *)

Definition lone_header : str :=
  chars "# OPEN3D_PARFOR_BLOCK: 1, OPEN3D_PARFOR_THREAD: 2".

Definition header_with_runtime : str :=
  chars "# OPEN3D_PARFOR_BLOCK: 1, OPEN3D_PARFOR_THREAD: 2 x 3 ms y ms 4".

Definition zero_runtime_line : str := chars "run 0.0 ms x ms 5".

Definition two_numbers_line : str := chars "a 1 ms 2 ms b ms 3".

(** A file name with a newline after its [_CPU]. *)
Definition newline_file_name : str :=
  chars "x_CPU" ++ [newline] ++ chars "y".

(** ** Runtime lines *)

(** The shape of a line that the runtime pattern matches, with its number
    [X] (decimal digits of any script, with an optional fraction) and its
    trailing integer [N] (digits 0 to 9): text, spaces, [X], " ms", spaces,
    text, "ms", spaces, [N], and at most a final newline. *)
Definition runtime_form (line X N : str) : Prop :=
  exists P S1 d fr S2 Q S3 tail,
    X = d ++ fr /\ all_decimals d = true /\ is_fraction fr = true /\
    all_digits N = true /\
    all_spaces S1 = true /\ all_spaces S2 = true /\ all_spaces S3 = true /\
    no_newline P = true /\ no_newline Q = true /\
    (tail = [] \/ tail = [newline]) /\
    line = P ++ S1 ++ X ++ chars " ms" ++ S2 ++ Q ++ chars "ms"
             ++ S3 ++ N ++ tail.

(** A way to read a line as a runtime line: the text [P], one space, the
    number [X] (decimal digits of any script, with an optional fraction),
    " ms ", text that ends with "ms", spaces and the trailing integer [N]
    (digits 0 to 9). *)
Definition runtime_split (line P X N : str) : Prop :=
  exists d fr Q S,
    X = d ++ fr /\ all_decimals d = true /\ is_fraction fr = true /\
    no_newline P = true /\ no_newline Q = true /\
    all_spaces S = true /\ all_digits N = true /\
    line = P ++ chars " " ++ X ++ chars " ms " ++ Q ++ chars "ms" ++ S ++ N.

(** The reading whose number stands latest in the line: no other reading
    has a longer text in front of its number. *)
Definition last_split (line P : str) : Prop :=
  forall P' X' N',
    runtime_split line P' X' N' -> List.length P' <= List.length P.

(** [float(X) / float(N)] for the two captured groups. *)
Definition quotient (X N : str) : res (option float) :=
  x <- py_float (Some X) ;;
  n <- py_float (Some N) ;;
  q <- float_div x n ;;
  Ok (Some q).

(** Only the digit zero, once or more. *)
Definition all_zeros (s : str) : bool :=
  match s with
  | [] => false
  | _ :: _ => forallb (cls_ok (Ch "0")) s
  end.

(** ** Samples of a group *)

(** What a line adds to the samples of an open group: its runtime, when
    there is one and it counts as true. *)
Definition sample_of (line : str) : list float :=
  match match_runtime line with
  | Ok (Some r) => if truthy r then [r] else []
  | _ => []
  end.

Definition samples (lines : list str) : list float :=
  flat_map sample_of lines.

(** A state with more records saved in front. *)
Definition with_results (G : Type) (pre : list (result G))
           (st : parser_state G) : parser_state G :=
  mk_state (current_block_thread_size st) (current_runtimes st)
           (pre ++ results st).

Definition res_map (A B : Type) (f : A -> B) (x : res A) : res B :=
  match x with
  | Ok a => Ok (f a)
  | Raise e => Raise e
  end.

(** ** Groups of a log *)

(** The samples of the lines up to the next header. *)
Fixpoint group_samples (lines : list str) : list float :=
  match lines with
  | [] => []
  | l :: ls => if is_header l then [] else sample_of l ++ group_samples ls
  end.

(** Every header of the log with the samples of the lines that follow it
    up to the next header. *)
Fixpoint groups (lines : list str) : list ((Z * Z) * list float) :=
  match lines with
  | [] => []
  | l :: ls =>
      match match_block_thread_size l with
      | Ok (Some nt) => (nt, group_samples ls) :: groups ls
      | _ => groups ls
      end
  end.

Definition record_of (G : Type) (g : list float -> G)
           (p : (Z * Z) * list float) : result G :=
  mk_result (fst (fst p)) (snd (fst p)) (g (snd p)).

(** One record for every group, in order. *)
Definition records (G : Type) (g : list float -> G) (lines : list str)
  : list (result G) :=
  map (record_of g) (groups lines).

(** The record of the open group of a state, once [extra] is collected. *)
Definition open_record (G : Type) (g : list float -> G)
           (st : parser_state G) (extra : list float) : list (result G) :=
  match current_block_thread_size st with
  | Some nt => [record_of g (nt, current_runtimes st ++ extra)]
  | None => []
  end.

(** ** Lines that make the parser raise *)

(** What a turn of the loop raises on a line, if anything: the header
    matcher is called first. *)
Definition line_error (line : str) : option exn :=
  match match_block_thread_size line with
  | Raise e => Some e
  | Ok _ =>
      match match_runtime line with
      | Raise e => Some e
      | Ok _ => None
      end
  end.

Fixpoint first_error (lines : list str) : option exn :=
  match lines with
  | [] => None
  | l :: ls =>
      match line_error l with
      | Some e => Some e
      | None => first_error ls
      end
  end.

(** ** Cells of the grid *)

(** The row and the column of a record, when both sizes are candidates. *)
Definition position (r : result float) : option (nat * nat) :=
  match find_index (block_size r) block_sizes,
        find_index (thread_size r) thread_sizes with
  | Some y, Some x => Some (y, x)
  | _, _ => None
  end.

Definition lands_at (y x : nat) (r : result float) : bool :=
  match position r with
  | Some (y', x') => Nat.eqb y' y && Nat.eqb x' x
  | None => false
  end.

(** What the loop prints for a record. *)
Definition printed_line (r : result float) : list (Z * Z * nat * nat) :=
  match position r with
  | Some (y, x) => [(block_size r, thread_size r, y, x)]
  | None => []
  end.

(** The size that [list.index] does not find for a record off the grid. *)
Definition missing_size (r : result float) : Z :=
  match find_index (block_size r) block_sizes with
  | None => block_size r
  | Some _ => thread_size r
  end.

Definition candidate_pair (nt : Z * Z) : bool :=
  existsb (Z.eqb (fst nt)) block_sizes
  && existsb (Z.eqb (snd nt)) thread_sizes.

(** ** The script from the log to the grid

    The main part of the script up to the drawing: the log is parsed and
    the records fill the grid. *)
Definition build_grid (scipy_gmean : list float -> float) (raw : list str)
  : res fill_state :=
  rs <- parse_file scipy_gmean raw ;;
  fill_grid rs.

(** ** Rounding to two decimals *)


(** ** Inputs of geo_mean *)



(** ** Later readings *)

(** The tail of the runtime pattern matches at the start of [w] or at a
    later position of it. *)
Fixpoint later_reading (w : str) : bool :=
  match w with
  | [] => false
  | _ :: w' =>
      match run runtime_tail w [] accept with
      | Some _ => true
      | None => later_reading w'
      end
  end.

Ltac break_denot :=
  repeat match goal with
         | H : exists _, _ |- _ => destruct H
         | H : _ /\ _ |- _ => destruct H
         end.

(** * Properties of the matcher *)

Lemma chr_eqb_spec (a b : chr) : reflect (a = b) (chr_eqb a b).
Proof.
  destruct a as [x|c d s], b as [y|c' d' s']; cbn;
    try (constructor; discriminate).
  - destruct (Ascii.eqb_spec x y); constructor; congruence.
  - destruct (N.eqb_spec c c'); cbn; [|constructor; congruence].
    destruct (Bool.eqb_spec s s'); cbn;
      [|rewrite andb_false_r; constructor; congruence].
    rewrite andb_true_r; subst.
    destruct d as [n|], d' as [n'|]; try (constructor; congruence).
    destruct (Nat.eqb_spec n n'); constructor; congruence.
Qed.

Lemma chr_eqb_refl (a : chr) : chr_eqb a a = true.
Proof. now destruct (chr_eqb_spec a a). Qed.

Lemma chr_eqb_eq (a b : chr) : chr_eqb a b = true <-> a = b.
Proof. destruct (chr_eqb_spec a b); split; congruence. Qed.

Lemma chr_eqb_neq (a b : chr) : chr_eqb a b = false <-> a <> b.
Proof. destruct (chr_eqb_spec a b); split; congruence. Qed.

Lemma chr_eqb_sym (a b : chr) : chr_eqb a b = chr_eqb b a.
Proof.
  destruct (chr_eqb_spec a b), (chr_eqb_spec b a); congruence.
Qed.

(** A character in a class of code points below 256 is one of them. *)
Lemma latin_true (f : ascii -> bool) (a : chr) :
  latin f a = true -> exists x, a = Latin x /\ f x = true.
Proof. destruct a as [x|c d s]; [eauto|discriminate]. Qed.

Lemma digit_decimal (a : chr) : latin is_digit a = true -> is_decimal a = true.
Proof. destruct a as [x|c d s]; [auto|discriminate]. Qed.

Lemma strip_prefix_app (l s : str) : strip_prefix l (l ++ s) = Some s.
Proof.
  induction l as [|a l IH]; simpl; [reflexivity|].
  now rewrite chr_eqb_refl.
Qed.

Lemma strip_prefix_some (l s s' : str) :
  strip_prefix l s = Some s' -> s = l ++ s'.
Proof.
  revert s; induction l as [|a l IH]; intros [|b s]; simpl; try congruence.
  destruct (chr_eqb a b) eqn:E; [|discriminate].
  apply chr_eqb_eq in E; subst b.
  intros H; now rewrite (IH _ H).
Qed.

Lemma firstn_consumed (u v : str) :
  firstn (List.length (u ++ v) - List.length v) (u ++ v) = u.
Proof.
  rewrite length_app, Nat.add_sub.
  rewrite firstn_app, Nat.sub_diag, firstn_all; simpl.
  apply app_nil_r.
Qed.

Section MatcherFacts.

Variable R : Type.
Implicit Types (k : str -> option R) (x : R).

Lemma star_sound p s k x :
  star p s k = Some x ->
  exists u v, s = u ++ v /\ forallb (cls_ok p) u = true /\ k v = Some x.
Proof.
  induction s as [|a s IH]; simpl.
  - intros H; exists [], []; auto.
  - destruct (cls_ok p a) eqn:Ea.
    + destruct (star p s k) as [y|] eqn:Es.
      * intros H; injection H as ->.
        destruct (IH eq_refl) as (u & v & -> & Hu & Hk).
        exists (a :: u), v; simpl; rewrite Ea, Hu; auto.
      * intros H; exists [], (a :: s); auto.
    + intros H; exists [], (a :: s); auto.
Qed.

Lemma star_complete p u v k :
  forallb (cls_ok p) u = true -> k v <> None -> star p (u ++ v) k <> None.
Proof.
  induction u as [|a u IH]; simpl.
  - intros _ Hk; destruct v as [|b v]; simpl; auto.
    destruct (cls_ok p b); [destruct (star p v k)|]; congruence.
  - intros H Hk; apply andb_true_iff in H as [Ha Hu]; rewrite Ha.
    specialize (IH Hu Hk).
    destruct (star p (u ++ v) k); congruence.
Qed.

(** A run that the class accepts in front of a successful repetition is
    swallowed by it. *)
Lemma star_prefix p u w k x :
  forallb (cls_ok p) u = true ->
  star p w k = Some x -> star p (u ++ w) k = Some x.
Proof.
  induction u as [|a u IH]; simpl; auto.
  intros H Hw; apply andb_true_iff in H as [Ha Hu].
  now rewrite Ha, (IH Hu Hw).
Qed.

Lemma star_none p s k :
  (forall u v, s = u ++ v -> k v = None) -> star p s k = None.
Proof.
  induction s as [|a s IH]; simpl; intros H.
  - apply (H [] []); reflexivity.
  - rewrite IH.
    + destruct (cls_ok p a); apply (H [] (a :: s)); reflexivity.
    + intros u v ->; apply (H (a :: u) v); reflexivity.
Qed.

(** When the continuation accepts right after the maximal run, the
    repetition takes the whole run. *)
Lemma star_greedy p u v k x :
  forallb (cls_ok p) u = true ->
  match v with [] => True | b :: _ => cls_ok p b = false end ->
  k v = Some x -> star p (u ++ v) k = Some x.
Proof.
  intros Hu Hv Hk.
  apply star_prefix; auto.
  destruct v as [|b v]; simpl; auto.
  now rewrite Hv.
Qed.

End MatcherFacts.

Lemma run_sound (R : Type) (r : re) :
  forall s c (k : str -> caps -> option R) x,
    run r s c k = Some x ->
    exists u v c', s = u ++ v /\ denot r u v c c' /\ k v c' = Some x.
Proof.
  induction r as [l|p|p|r IH|r1 IH1 r2 IH2|n r IH|]; intros s c k x; simpl.
  - destruct (strip_prefix l s) as [s'|] eqn:E; [|discriminate].
    intros H; exists l, s', c; split; [now apply strip_prefix_some|auto].
  - intros H; apply star_sound in H as (u & v & -> & Hu & Hk).
    exists u, v, c; auto.
  - destruct s as [|a s]; [discriminate|].
    destruct (cls_ok p a) eqn:Ea; [|discriminate].
    intros H; apply star_sound in H as (u & v & -> & Hu & Hk).
    exists (a :: u), v, c; simpl; rewrite Ea, Hu.
    repeat split; auto; discriminate.
  - destruct (run r s c k) as [y|] eqn:E.
    + intros H; injection H as ->.
      destruct (IH _ _ _ _ E) as (u & v & c' & -> & Hd & Hk).
      exists u, v, c'; auto.
    + intros H; exists [], s, c; auto.
  - intros H.
    destruct (IH1 _ _ _ _ H) as (u1 & v1 & c1 & -> & Hd1 & H1).
    destruct (IH2 _ _ _ _ H1) as (u2 & v & c' & -> & Hd2 & Hk).
    exists (u1 ++ u2), v, c'; split; [now rewrite app_assoc|].
    split; auto; exists u1, u2, c1; auto.
  - intros H.
    destruct (IH _ _ _ _ H) as (u & v & c0 & -> & Hd & Hk).
    rewrite firstn_consumed in Hk.
    exists u, v, ((n, u) :: c0); split; auto; split; auto.
    exists c0; auto.
  - destruct s as [|a [|b s]]; try discriminate.
    + intros H; exists [], [], c; auto 6.
    + destruct (chr_eqb a newline) eqn:Ea; [|discriminate].
      apply chr_eqb_eq in Ea; subst a.
      intros H; exists [], [newline], c; auto 6.
Qed.

Lemma run_complete (R : Type) (r : re) :
  forall u v c c' (k : str -> caps -> option R),
    denot r u v c c' -> k v c' <> None -> run r (u ++ v) c k <> None.
Proof.
  induction r as [l|p|p|r IH|r1 IH1 r2 IH2|n r IH|]; intros u v c c' k; simpl.
  - intros [-> ->] Hk; now rewrite strip_prefix_app.
  - intros [Hu ->] Hk; now apply star_complete.
  - intros (Hne & Hu & ->) Hk.
    destruct u as [|a u]; [congruence|]; simpl in *.
    apply andb_true_iff in Hu as [Ha Hu]; rewrite Ha.
    now apply star_complete.
  - intros [[-> ->]|Hd] Hk; simpl.
    + destruct (run r v c k); congruence.
    + specialize (IH _ _ _ _ _ Hd Hk).
      destruct (run r (u ++ v) c k); congruence.
  - intros (u1 & u2 & c1 & -> & Hd1 & Hd2) Hk.
    rewrite <- app_assoc.
    apply (IH1 _ _ _ _ _ Hd1); now apply (IH2 _ _ _ _ _ Hd2).
  - intros (c0 & Hd & ->) Hk.
    apply (IH _ _ _ _ _ Hd); now rewrite firstn_consumed.
  - intros (-> & [-> | ->] & ->) Hk; simpl; auto.
Qed.

Lemma all_digits_iff (s : str) :
  all_digits s = true <-> s <> [] /\ forallb (latin is_digit) s = true.
Proof.
  destruct s as [|a s]; simpl; split; easy.
Qed.

Lemma run_seq (R : Type) r1 r2 s c (k : str -> caps -> option R) :
  run (Seq r1 r2) s c k = run r1 s c (fun s' c' => run r2 s' c' k).
Proof. reflexivity. Qed.

Lemma run_opt (R : Type) r s c (k : str -> caps -> option R) :
  run (Opt r) s c k = match run r s c k with
                      | Some x => Some x
                      | None => k s c
                      end.
Proof. reflexivity. Qed.

Lemma run_lit (R : Type) l s c (k : str -> caps -> option R) :
  run (Lit l) (l ++ s) c k = k s c.
Proof. simpl; now rewrite strip_prefix_app. Qed.

Lemma run_plus_greedy (R : Type) p u v c (k : str -> caps -> option R) x :
  u <> [] -> forallb (cls_ok p) u = true -> not_next (cls_ok p) v ->
  k v c = Some x -> run (Plus p) (u ++ v) c k = Some x.
Proof.
  intros Hne Hu Hv Hk.
  destruct u as [|a u]; [congruence|]; simpl in *.
  apply andb_true_iff in Hu as [Ha Hu]; rewrite Ha.
  now apply star_greedy.
Qed.

Lemma run_group (R : Type) n r u v c (k : str -> caps -> option R) x :
  (forall k', k' v c = Some x -> run r (u ++ v) c k' = Some x) ->
  k v ((n, u) :: c) = Some x -> run (Group n r) (u ++ v) c k = Some x.
Proof.
  intros Hr Hk; simpl; apply Hr; now rewrite firstn_consumed.
Qed.

(** ** The header matcher *)

Lemma header_match_sound (line : str) (m : caps) :
  re_match header_pattern line = Some m ->
  exists db dt rest,
    all_digits db = true /\ all_digits dt = true /\
    line = header_prefix ++ db ++ header_middle ++ dt ++ rest /\
    m = [(2, dt); (1, db)].
Proof.
  unfold re_match; intros H.
  apply run_sound in H as (u & v & c' & -> & Hd & Hk).
  injection Hk as <-; simpl in Hd; break_denot; subst.
  match goal with
  | |- context [(2, ?t) :: (1, ?b) :: _] => exists b, t, v
  end.
  repeat split; try (apply all_digits_iff; now split).
  now rewrite <- !app_assoc.
Qed.

Lemma header_match_greedy (db dt rest : str) :
  all_digits db = true -> all_digits dt = true -> no_head is_digit rest ->
  re_match header_pattern
           (header_prefix ++ db ++ header_middle ++ dt ++ rest)
  = Some [(2, dt); (1, db)].
Proof.
  intros Hb Ht Hr.
  apply all_digits_iff in Hb as [Hb1 Hb2], Ht as [Ht1 Ht2].
  unfold re_match, header_pattern.
  rewrite run_seq, run_lit, run_seq.
  apply run_group.
  { intros k' Hk'; apply run_plus_greedy; auto; reflexivity. }
  rewrite run_seq, run_lit.
  apply run_group; [|reflexivity].
  intros k' Hk'; apply run_plus_greedy; auto.
Qed.

Lemma header_match_outcome (db dt rest : str) :
  all_digits db = true -> all_digits dt = true -> no_head is_digit rest ->
  match_block_thread_size
    (header_prefix ++ db ++ header_middle ++ dt ++ rest)
  = header_result db dt.
Proof.
  intros Hb Ht Hr; unfold match_block_thread_size, header_result.
  rewrite header_match_greedy by assumption.
  cbn [group Nat.eqb py_int]; rewrite Hb, Ht; unfold within_limit.
  destruct (Nat.leb (List.length db) int_max_str_digits); cbn [bind];
    [|reflexivity].
  destruct (Nat.leb (List.length dt) int_max_str_digits); reflexivity.
Qed.

Lemma span_spec (f : chr -> bool) (s : str) :
  s = fst (span f s) ++ snd (span f s)
  /\ forallb f (fst (span f s)) = true
  /\ not_next f (snd (span f s)).
Proof.
  induction s as [|a s (IH1 & IH2 & IH3)]; simpl; [auto|].
  destruct (f a) eqn:Ea.
  - destruct (span f s) as [d r]; simpl in *.
    rewrite Ea; repeat split; auto; congruence.
  - simpl; auto.
Qed.

(** The two outcomes of the header pattern on a line: no match, or the two
    whole runs of digits of a header. *)
Lemma header_match_cases (line : str) :
  (re_match header_pattern line = None
   /\ match_block_thread_size line = Ok None)
  \/ exists db dt rest,
      line = header_prefix ++ db ++ header_middle ++ dt ++ rest /\
      all_digits db = true /\ all_digits dt = true /\
      no_head is_digit rest /\
      re_match header_pattern line = Some [(2, dt); (1, db)] /\
      match_block_thread_size line = header_result db dt.
Proof.
  destruct (re_match header_pattern line) as [m|] eqn:E0.
  - right; pose proof E0 as E.
    apply header_match_sound in E as (db & dt' & rest' & Hb & Ht' & -> & _).
    destruct (span_spec (latin is_digit) (dt' ++ rest')) as (E & Hd & Hr).
    set (dt := fst (span (latin is_digit) (dt' ++ rest'))) in *.
    set (rest := snd (span (latin is_digit) (dt' ++ rest'))) in *.
    assert (Ht : all_digits dt = true).
    { apply all_digits_iff; split; [|exact Hd].
      apply all_digits_iff in Ht' as [Hne Hall].
      destruct dt' as [|a dt']; [congruence|].
      subst dt; simpl in *.
      apply andb_true_iff in Hall as [Ha _]; rewrite Ha.
      destruct (span (latin is_digit) (dt' ++ rest')); discriminate. }
    exists db, dt, rest; rewrite E in *.
    split; [reflexivity|]; split; [exact Hb|]; split; [exact Ht|].
    split; [exact Hr|]; split.
    + rewrite <- E0; now apply header_match_greedy.
    + now apply header_match_outcome.
  - left; split; [reflexivity|].
    unfold match_block_thread_size; now rewrite E0.
Qed.

Lemma within_limit_false (s : str) :
  within_limit s = false -> (int_max_str_digits < List.length s)%nat.
Proof.
  unfold within_limit; intros H; now apply Nat.leb_gt.
Qed.

(** C4, as the code has it: on a line that starts with
    [# OPEN3D_PARFOR_BLOCK: B, OPEN3D_PARFOR_THREAD: T], the digits of [T]
    not being followed by a further digit (in particular on the line that is
    exactly that text), the header matcher returns the pair of the integers
    that [B] and [T] spell when each has at most 4300 digits, and raises the
    [ValueError] of the digit limit of [int] otherwise ([B] first); on a
    line that does not start that way it returns [None]; it raises nothing
    else, and on no other line. *)
Theorem match_block_thread_size_spec :
  (forall db dt rest,
      all_digits db = true -> all_digits dt = true ->
      no_head is_digit rest ->
      within_limit db = true -> within_limit dt = true ->
      match_block_thread_size
        (header_prefix ++ db ++ header_middle ++ dt ++ rest)
      = Ok (Some (digits_value 0 db, digits_value 0 dt)))
  /\ (forall line, ~ header_form line ->
                   match_block_thread_size line = Ok None)
  /\ (forall db dt rest,
         all_digits db = true -> all_digits dt = true ->
         no_head is_digit rest ->
         (within_limit db = false ->
          match_block_thread_size
            (header_prefix ++ db ++ header_middle ++ dt ++ rest)
          = Raise (ValueError_digit_limit (List.length db)))
         /\ (within_limit db = true -> within_limit dt = false ->
             match_block_thread_size
               (header_prefix ++ db ++ header_middle ++ dt ++ rest)
             = Raise (ValueError_digit_limit (List.length dt))))
  /\ (forall line e,
         match_block_thread_size line = Raise e ->
         exists db dt rest,
           line = header_prefix ++ db ++ header_middle ++ dt ++ rest /\
           all_digits db = true /\ all_digits dt = true /\
           no_head is_digit rest /\
           ((within_limit db = false /\
             e = ValueError_digit_limit (List.length db))
            \/ (within_limit dt = false /\
                e = ValueError_digit_limit (List.length dt)))).
Proof.
  split; [|split; [|split]].
  - intros db dt rest Hb Ht Hr Lb Lt.
    rewrite header_match_outcome by assumption.
    unfold header_result; now rewrite Lb, Lt.
  - intros line Hn.
    destruct (header_match_cases line)
      as [[_ E]|(db & dt & rest & -> & Hb & Ht & _)]; [exact E|].
    exfalso; apply Hn; now exists db, dt, rest.
  - intros db dt rest Hb Ht Hr; split.
    + intros Lb; rewrite header_match_outcome by assumption.
      unfold header_result; now rewrite Lb.
    + intros Lb Lt; rewrite header_match_outcome by assumption.
      unfold header_result; now rewrite Lb, Lt.
  - intros line e H.
    destruct (header_match_cases line)
      as [[_ E]|(db & dt & rest & El & Hb & Ht & Hr & _ & E)];
      [congruence|].
    exists db, dt, rest; repeat split; auto.
    rewrite E in H; unfold header_result in H.
    destruct (within_limit db) eqn:Lb.
    + destruct (within_limit dt) eqn:Lt; [discriminate H|].
      right; split; congruence.
    + left; split; congruence.
Qed.

Lemma match_block_thread_size_witness :
  match_block_thread_size
    (chars "# OPEN3D_PARFOR_BLOCK: 16, OPEN3D_PARFOR_THREAD: 256")
  = Ok (Some (16%Z, 256%Z))
  /\ match_block_thread_size (chars "run x 10.0 ms y 2.0 ms 1") = Ok None.
Proof.
  split.
  - exact (proj1 match_block_thread_size_spec
                 (chars "16") (chars "256") [] eq_refl eq_refl I
                 eq_refl eq_refl).
  - apply (proj1 (proj2 match_block_thread_size_spec)).
    intros (db & dt & rest & _ & _ & H); discriminate H.
Defined.

(** A header whose block size has 4301 digits makes the header matcher
    raise. *)
Lemma match_block_thread_size_limit_counterexample :
  match_block_thread_size long_header
  = Raise (ValueError_digit_limit 4301).
Proof. vm_compute; reflexivity. Qed.

(** ** Occurrences of a substring *)

Lemma occurs_unfold (n s : str) :
  occurs n s = match strip_prefix n s with
               | Some _ => true
               | None => match s with
                         | [] => false
                         | _ :: s' => occurs n s'
                         end
               end.
Proof. destruct s; reflexivity. Qed.

Lemma occurs_app (n a b : str) : occurs n (a ++ n ++ b) = true.
Proof.
  induction a as [|x a IH]; simpl.
  - now rewrite occurs_unfold, strip_prefix_app.
  - destruct (strip_prefix n (x :: a ++ n ++ b)); auto.
Qed.

Lemma occurs_suffix (n u v : str) :
  occurs n (u ++ v) = false -> occurs n v = false.
Proof.
  induction u as [|x u IH]; simpl; auto.
  destruct (strip_prefix n (x :: u ++ v)); [discriminate|auto].
Qed.

Lemma occurs_false_prefix (n s : str) :
  occurs n s = false -> strip_prefix n s = None.
Proof.
  rewrite occurs_unfold; destruct (strip_prefix n s); congruence.
Qed.

(** The last occurrence of a non-empty needle. *)
Lemma occurs_last (n s : str) :
  n <> [] -> occurs n s = true ->
  exists p rest, s = p ++ n ++ rest /\ occurs n rest = false.
Proof.
  intros Hn; induction s as [|x s IH].
  - simpl; destruct n; [congruence|discriminate].
  - intros H; destruct (occurs n s) eqn:Es.
    + destruct (IH eq_refl) as (p & rest & -> & Hr).
      exists (x :: p), rest; auto.
    + simpl in H.
      destruct (strip_prefix n (x :: s)) as [rest|] eqn:Ep; [|congruence].
      apply strip_prefix_some in Ep.
      exists [], rest; split; [exact Ep|].
      destruct n as [|y n]; [congruence|].
      injection Ep as _ ->.
      now apply occurs_suffix in Es.
Qed.

(** ** The CPU-prefix helper *)

Lemma cpu_match_last (p rest : str) :
  no_newline p = true -> no_newline rest = true ->
  occurs cpu_marker rest = false ->
  re_match cpu_pattern (p ++ cpu_marker ++ rest)
  = Some [(1, p ++ cpu_marker)].
Proof.
  intros Hp Hr Ho; unfold re_match, cpu_pattern.
  fold cpu_marker; rewrite run_seq, app_assoc.
  apply run_group.
  - intros k' Hk'; rewrite <- app_assoc, run_seq.
    cbn [run]; apply star_prefix; [exact Hp|].
    change (cpu_marker ++ rest)
      with (Latin "_" :: (chars "CPU" ++ rest)).
    cbn [star cls_ok]; change (negb (chr_eqb (Latin "_") newline)) with true.
    cbv iota.
    rewrite star_none.
    + change (Latin "_" :: (chars "CPU" ++ rest)) with (cpu_marker ++ rest).
      now rewrite strip_prefix_app.
    + intros u v E.
      assert (Hv : occurs cpu_marker v = false).
      { apply (occurs_suffix cpu_marker u); rewrite <- E.
        simpl; exact Ho. }
      now rewrite (occurs_false_prefix _ _ Hv).
  - rewrite run_seq; cbn [run].
    rewrite <- (app_nil_r rest) at 1.
    apply star_greedy; auto; exact I.
Qed.

Lemma cpu_match_sound (f : str) (m : caps) :
  re_match cpu_pattern f = Some m -> occurs cpu_marker f = true.
Proof.
  unfold re_match; intros H.
  apply run_sound in H as (u & v & c' & -> & Hd & _).
  simpl in Hd; break_denot; subst.
  rewrite <- !app_assoc; apply occurs_app.
Qed.

(** C8, as the code has it: a file name without [_CPU] raises the
    [ValueError] that names it; a file name without newline characters that
    contains [_CPU] is mapped to its prefix up to and including the last
    [_CPU]. *)
Theorem extract_cpu_prefix_spec :
  (forall p rest,
      no_newline p = true -> no_newline rest = true ->
      occurs cpu_marker rest = false ->
      extract_cpu_prefix (p ++ cpu_marker ++ rest)
      = Ok (Some (p ++ cpu_marker)))
  /\ (forall f, occurs cpu_marker f = false ->
                extract_cpu_prefix f = Raise (ValueError_invalid_log_file f))
  /\ (forall f, no_newline f = true -> occurs cpu_marker f = true ->
                exists p rest,
                  f = p ++ cpu_marker ++ rest /\
                  extract_cpu_prefix f = Ok (Some (p ++ cpu_marker))).
Proof.
  assert (H1 : forall p rest,
             no_newline p = true -> no_newline rest = true ->
             occurs cpu_marker rest = false ->
             extract_cpu_prefix (p ++ cpu_marker ++ rest)
             = Ok (Some (p ++ cpu_marker))).
  { intros p rest Hp Hr Ho; unfold extract_cpu_prefix.
    rewrite cpu_match_last by assumption; reflexivity. }
  split; [exact H1|split].
  - intros f Ho; unfold extract_cpu_prefix.
    destruct (re_match cpu_pattern f) as [m|] eqn:E; [|reflexivity].
    apply cpu_match_sound in E; congruence.
  - intros f Hf Ho.
    apply occurs_last in Ho as (p & rest & -> & Hr); [|discriminate].
    unfold no_newline in Hf; rewrite !forallb_app in Hf.
    apply andb_true_iff in Hf as [Hp Hf].
    apply andb_true_iff in Hf as [_ Hf].
    exists p, rest; split; auto.
Qed.

Lemma extract_cpu_prefix_witness :
  extract_cpu_prefix (chars "benchmark_Intel_CPU_with_dummy.log")
  = Ok (Some (chars "benchmark_Intel_CPU"))
  /\ extract_cpu_prefix (chars "benchmark_no_marker.log")
     = Raise (ValueError_invalid_log_file (chars "benchmark_no_marker.log")).
Proof.
  split.
  - exact (proj1 extract_cpu_prefix_spec
                 (chars "benchmark_Intel") (chars "_with_dummy.log")
                 eq_refl eq_refl eq_refl).
  - exact (proj1 (proj2 extract_cpu_prefix_spec)
                 (chars "benchmark_no_marker.log") eq_refl).
Defined.

(** A file name can contain [_CPU] and still be refused: [.] does not match
    a newline, and [$] only matches at the end (or before a final newline). *)
Lemma extract_cpu_prefix_newline_counterexample :
  occurs cpu_marker newline_file_name = true
  /\ extract_cpu_prefix newline_file_name
     = Raise (ValueError_invalid_log_file newline_file_name).
Proof. split; reflexivity. Qed.

(** ** Runs of characters *)

(** The first maximal run of a class is determined by the string. *)
Lemma first_run_unique (p : chr -> bool) :
  forall u u' x x' r r',
    u ++ x :: r = u' ++ x' :: r' ->
    forallb p u = true -> forallb p u' = true ->
    p x = false -> p x' = false ->
    u = u' /\ x :: r = x' :: r'.
Proof.
  induction u as [|a u IH]; intros [|a' u'] x x' r r' E Hu Hu' Hx Hx';
    simpl in *.
  - auto.
  - injection E as -> _; apply andb_true_iff in Hu' as [Ha _]; congruence.
  - injection E as -> _; apply andb_true_iff in Hu as [Ha _]; congruence.
  - injection E as -> E.
    apply andb_true_iff in Hu as [_ Hu], Hu' as [_ Hu'].
    destruct (IH _ _ _ _ _ E Hu Hu' Hx Hx') as [-> ->]; auto.
Qed.

(** So is the last one. *)
Lemma last_run_unique (p : chr -> bool) :
  forall a a' x x' u u',
    a ++ x :: u = a' ++ x' :: u' ->
    forallb p u = true -> forallb p u' = true ->
    p x = false -> p x' = false ->
    u = u'.
Proof.
  intros a a' x x' u u' E Hu Hu' Hx Hx'.
  apply (f_equal (@rev chr)) in E.
  rewrite !rev_app_distr in E; simpl in E; rewrite <- !app_assoc in E.
  simpl in E.
  apply (first_run_unique p) in E as [E _]; auto.
  - rewrite <- (rev_involutive u), E; apply rev_involutive.
  - rewrite forallb_forall in *; intros y Hy; apply Hu, in_rev, Hy.
  - rewrite forallb_forall in *; intros y Hy; apply Hu', in_rev, Hy.
Qed.

Lemma run_of_char_last (c : ascii) (s : str) :
  s <> [] -> forallb (cls_ok (Ch c)) s = true ->
  exists s', s = s' ++ [Latin c].
Proof.
  intros Hne Hs.
  destruct (exists_last Hne) as (s' & a & ->).
  rewrite forallb_app in Hs; apply andb_true_iff in Hs as [_ Hs].
  simpl in Hs; rewrite andb_true_r in Hs.
  apply chr_eqb_eq in Hs; subst a; eauto.
Qed.

Lemma span_app (f : chr -> bool) (d rest : str) :
  forallb f d = true -> not_next f rest ->
  span f (d ++ rest) = (d, rest).
Proof.
  induction d as [|a d IH]; simpl; intros Hd Hr.
  - destruct rest as [|b rest]; simpl in *; [reflexivity|now rewrite Hr].
  - apply andb_true_iff in Hd as [Ha Hd]; rewrite Ha, IH; auto.
Qed.

(** ** Counting the occurrences of "ms" *)

Lemma count_ms_suffix (u v : str) : count_ms v <= count_ms (u ++ v).
Proof.
  induction u as [|a u IH]; [apply Nat.le_refl|].
  change ((a :: u) ++ v) with (a :: (u ++ v)).
  cbn [count_ms]; lia.
Qed.

Lemma count_ms_two (a b c : str) :
  2 <= count_ms (a ++ Latin "m" :: Latin "s" :: b
                   ++ Latin "m" :: Latin "s" :: c).
Proof.
  pose proof (count_ms_suffix a
                (Latin "m" :: Latin "s" :: b ++ Latin "m" :: Latin "s" :: c)) as H1.
  pose proof (count_ms_suffix b (Latin "m" :: Latin "s" :: c)) as H2.
  cbn [count_ms starts_ms] in H1, H2; cbn [count_ms starts_ms].
  lia.
Qed.

Lemma count_ms_app (u v : str) :
  no_head (fun b => Ascii.eqb b "s") v ->
  count_ms (u ++ v) = count_ms u + count_ms v.
Proof.
  intros Hv; induction u as [|a u IH]; [reflexivity|].
  change ((a :: u) ++ v) with (a :: (u ++ v)).
  cbn [count_ms]; rewrite IH.
  assert (E : starts_ms (a :: u ++ v) = starts_ms (a :: u)).
  { destruct u as [|b u]; [|reflexivity].
    destruct v as [|b v]; [reflexivity|].
    destruct b as [y|c d sp];
      [|destruct a as [[[] [] [] [] [] [] [] []]|]; reflexivity].
    simpl in Hv; apply Ascii.eqb_neq in Hv.
    simpl; destruct a as [[[] [] [] [] [] [] [] []]|]; try reflexivity.
    destruct y as [[] [] [] [] [] [] [] []]; try reflexivity.
    congruence. }
  rewrite E; lia.
Qed.

Lemma count_ms_none (s : str) :
  forallb (fun a => negb (chr_eqb a (Latin "m"))) s = true ->
  count_ms s = 0.
Proof.
  induction s as [|a s IH]; [reflexivity|].
  cbn [forallb count_ms]; intros H.
  apply andb_true_iff in H as [Ha Hs]; rewrite (IH Hs).
  apply negb_true_iff, chr_eqb_neq in Ha.
  assert (E : starts_ms (a :: s) = false).
  { destruct s as [|b s]; simpl;
      destruct a as [[[] [] [] [] [] [] [] []]|]; try reflexivity.
    congruence. }
  now rewrite E.
Qed.

Lemma occurs_ms_count (s : str) :
  occurs (chars "ms") s = false -> count_ms s = 0.
Proof.
  induction s as [|a s IH]; [reflexivity|].
  rewrite occurs_unfold.
  destruct (strip_prefix (chars "ms") (a :: s)) eqn:E; [discriminate|].
  intros H; cbn [count_ms]; rewrite (IH H).
  assert (E' : starts_ms (a :: s) = false).
  { destruct (starts_ms (a :: s)) eqn:Es; [|reflexivity].
    destruct a as [[[] [] [] [] [] [] [] []]|]; try discriminate Es.
    destruct s as [|b s]; [discriminate Es|].
    destruct b as [[[] [] [] [] [] [] [] []]|]; try discriminate Es.
    discriminate E. }
  now rewrite E'.
Qed.

(** ** The runtime matcher *)

Lemma runtime_pattern_cut : runtime_pattern = (Star Dot ;; runtime_tail)%re.
Proof. reflexivity. Qed.

Lemma all_spaces_iff (s : str) :
  all_spaces s = true <-> s <> [] /\ forallb (cls_ok (Ch " ")) s = true.
Proof.
  destruct s as [|a s]; simpl; split; easy.
Qed.

Lemma decimal_not_space (a : chr) :
  is_decimal a = true -> cls_ok (Ch " ") a = false.
Proof.
  intros H; simpl; destruct (chr_eqb_spec a (Latin " "));
    [subst; discriminate|auto].
Qed.

Lemma digit_not_space (a : chr) :
  latin is_digit a = true -> cls_ok (Ch " ") a = false.
Proof. intros H; now apply decimal_not_space, digit_decimal. Qed.

(** The tail of the pattern needs a leading space. *)
Lemma runtime_tail_head (a : chr) (s : str) (c : caps) :
  cls_ok (Ch " ") a = false -> run runtime_tail (a :: s) c accept = None.
Proof.
  intros H; unfold runtime_tail; rewrite run_seq.
  cbn [run]; now rewrite H.
Qed.

(** It needs two occurrences of "ms". *)
Lemma runtime_tail_two_ms (s : str) (c m : caps) :
  run runtime_tail s c accept = Some m -> 2 <= count_ms s.
Proof.
  intros H.
  apply run_sound in H as (u & v & c' & -> & Hd & _).
  simpl in Hd; break_denot; subst.
  repeat rewrite <- app_assoc; simpl.
  match goal with
  | |- 2 <= count_ms (?s1 ++ ?g1 ++ ?g2 ++ Latin " " :: _ :: _ :: ?s2 ++ ?q
                        ++ _ :: _ :: ?t) =>
      replace (s1 ++ g1 ++ g2 ++
               Latin " " :: Latin "m" :: Latin "s" :: s2 ++ q
               ++ Latin "m" :: Latin "s" :: t)
        with ((s1 ++ g1 ++ g2 ++ [Latin " "])
                ++ Latin "m" :: Latin "s" :: (s2 ++ q)
                ++ Latin "m" :: Latin "s" :: t)
        by (repeat rewrite <- app_assoc; reflexivity)
  end.
  apply count_ms_two.
Qed.

(** What follows the first " ms": the second group is the trailing run of
    digits. *)
Lemma runtime_rest_match (Q S N : str) (c : caps) :
  no_newline Q = true -> all_spaces S = true -> all_digits N = true ->
  run runtime_rest (chars " " ++ Q ++ chars "ms" ++ S ++ N) c accept
  = Some ((2, N) :: c).
Proof.
  intros HQ HS HN.
  apply all_spaces_iff in HS as [HS1 HS2].
  apply all_digits_iff in HN as [HN1 HN2].
  destruct (run runtime_rest (chars " " ++ Q ++ chars "ms" ++ S ++ N)
                c accept) as [m|] eqn:E.
  - apply run_sound in E as (u & v & c' & E & Hd & Hk).
    injection Hk as <-; simpl in Hd; break_denot; subst.
    repeat rewrite <- app_assoc in E; simpl in E.
    match goal with
    | H3 : forallb (cls_ok (Ch " ")) ?s3 = true, Hne : ?s3 <> [],
      Hg : forallb (cls_ok Digit) ?g2 = true, Hv : v = [] \/ _
      |- Some ((2, ?g2) :: c) = _ =>
        destruct (run_of_char_last _ Hne H3) as (s3' & ->);
        destruct (run_of_char_last _ HS1 HS2) as (S' & ->);
        rename g2 into G2; rename Hg into HG2; rename Hv into Hv'
    end.
    match type of E with
    | _ = ?x1 ++ ?x2 ++ _ =>
        assert (EL : (Latin " " :: Q ++ Latin "m" :: Latin "s" :: S')
                       ++ Latin " " :: N
                     = x1 ++ x2 ++ Latin "m" :: Latin "s"
                          :: (s3' ++ [Latin " "]) ++ G2 ++ v)
          by (rewrite <- E; repeat (rewrite <- app_assoc; simpl);
              reflexivity);
        clear E; rename x1 into s2; rename x2 into q
    end.
    assert (Hsp : latin is_digit (Latin " ") = false) by reflexivity.
    destruct Hv' as [-> | ->].
    + replace (s2 ++ q ++ Latin "m" :: Latin "s"
                  :: (s3' ++ [Latin " "]) ++ G2 ++ [])
        with ((s2 ++ q ++ Latin "m" :: Latin "s" :: s3') ++ Latin " " :: G2)
        in EL
        by (rewrite app_nil_r; repeat (rewrite <- app_assoc; simpl);
            reflexivity).
      apply (last_run_unique (latin is_digit)) in EL; auto.
      now subst.
    + replace (s2 ++ q ++ Latin "m" :: Latin "s"
                  :: (s3' ++ [Latin " "]) ++ G2 ++ [newline])
        with ((s2 ++ q ++ Latin "m" :: Latin "s" :: s3' ++ Latin " " :: G2)
                ++ newline :: [])
        in EL
        by (repeat (rewrite <- app_assoc; simpl); reflexivity).
      apply (last_run_unique (latin is_digit)) in EL; auto.
      congruence.
  - exfalso; revert E.
    rewrite <- (app_nil_r (chars " " ++ Q ++ chars "ms" ++ S ++ N)).
    apply run_complete with (c' := (2, N) :: c); [|discriminate].
    simpl.
    exists [Latin " "], (Q ++ chars "ms" ++ S ++ N), c.
    repeat split; try discriminate.
    exists Q, (chars "ms" ++ S ++ N), c; repeat split; auto.
    exists (chars "ms"), (S ++ N), c; repeat split.
    exists S, N, c; repeat split; auto.
    exists N, [], ((2, N) :: c); repeat split; auto using app_nil_r.
    + symmetry; apply app_nil_r.
    + exists c; auto.
Qed.

Lemma star_cons_none (R : Type) p a s (k : str -> option R) :
  star p s k = None -> k (a :: s) = None -> star p (a :: s) k = None.
Proof.
  intros Hs Hk; simpl; rewrite Hs; now destruct (cls_ok p a).
Qed.

Lemma star_app_none (R : Type) p u w (k : str -> option R) :
  (forall a rest, In a u -> k (a :: rest) = None) ->
  star p w k = None -> star p (u ++ w) k = None.
Proof.
  induction u as [|a u IH]; intros Hu Hw; [exact Hw|].
  change ((a :: u) ++ w) with (a :: (u ++ w)).
  apply star_cons_none.
  - apply IH; auto; intros b rest Hb; apply Hu; now right.
  - apply Hu; now left.
Qed.

Lemma all_decimals_iff (s : str) :
  all_decimals s = true <-> s <> [] /\ forallb is_decimal s = true.
Proof.
  destruct s as [|a s]; simpl; split; easy.
Qed.

Lemma all_digits_decimals (s : str) :
  all_digits s = true -> all_decimals s = true.
Proof.
  intros H; apply all_digits_iff in H as [Hne Hall].
  apply all_decimals_iff; split; [exact Hne|].
  rewrite forallb_forall in *; intros a Ha; now apply digit_decimal, Hall.
Qed.

(** A fraction that is not empty is a dot and decimal digits. *)
Lemma is_fraction_cons (b : chr) (fr : str) :
  is_fraction (b :: fr) = true -> b = Latin "." /\ all_decimals fr = true.
Proof.
  intros Hf; simpl in Hf.
  destruct b as [[[] [] [] [] [] [] [] []]|]; try discriminate Hf.
  now split.
Qed.

(** The characters of a number: decimal digits and the dot. *)
Lemma number_chars (d fr : str) (a : chr) :
  all_decimals d = true -> is_fraction fr = true -> In a (d ++ fr) ->
  cls_ok (Ch " ") a = false.
Proof.
  intros Hd Hf Ha.
  apply all_decimals_iff in Hd as [_ Hd].
  apply in_app_or in Ha as [Ha|Ha].
  - apply decimal_not_space; rewrite forallb_forall in Hd; auto.
  - destruct fr as [|b fr]; [destruct Ha|].
    apply is_fraction_cons in Hf as [-> Hf].
    destruct Ha as [<-|Ha]; [reflexivity|].
    apply all_decimals_iff in Hf as [_ Hf].
    apply decimal_not_space; rewrite forallb_forall in Hf; auto.
Qed.

Lemma number_match (R : Type) (d fr v : str) (c : caps)
      (k : str -> caps -> option R) (x : R) :
  all_decimals d = true -> is_fraction fr = true ->
  not_next (fun a => is_decimal a || chr_eqb a (Latin ".")) v ->
  k v c = Some x -> run number_re ((d ++ fr) ++ v) c k = Some x.
Proof.
  intros Hd Hf Hv Hk.
  apply all_decimals_iff in Hd as [Hd1 Hd2].
  assert (Hv1 : not_next is_decimal v).
  { destruct v; simpl in *; auto; now apply orb_false_iff in Hv. }
  unfold number_re; rewrite run_seq, <- app_assoc.
  destruct fr as [|b fr].
  - apply run_plus_greedy; auto.
    cbn [run app]; destruct v as [|a v]; [exact Hk|].
    simpl in Hv; apply orb_false_iff in Hv as [_ Hv].
    change (strip_prefix (chars ".") (a :: v))
      with (if chr_eqb (Latin ".") a then Some v else None).
    rewrite chr_eqb_sym, Hv; exact Hk.
  - apply is_fraction_cons in Hf as [-> Hf].
    apply all_decimals_iff in Hf as [Hf1 Hf2].
    apply run_plus_greedy; auto; [reflexivity|].
    change ((Latin "." :: fr) ++ v) with (chars "." ++ (fr ++ v)).
    rewrite run_opt, run_seq, run_lit.
    rewrite (@run_plus_greedy R Decimal fr v c k x Hf1 Hf2 Hv1 Hk).
    reflexivity.
Qed.

Lemma runtime_tail_match (d fr Q S N : str) :
  all_decimals d = true -> is_fraction fr = true ->
  no_newline Q = true -> all_spaces S = true -> all_digits N = true ->
  run runtime_tail
      (chars " " ++ (d ++ fr) ++ chars " ms " ++ Q ++ chars "ms" ++ S ++ N)
      [] accept
  = Some [(2, N); (1, d ++ fr)].
Proof.
  intros Hd Hf HQ HS HN.
  unfold runtime_tail; rewrite run_seq.
  apply run_plus_greedy; [discriminate|reflexivity| |].
  { pose proof (all_decimals_iff d) as [Hd' _].
    destruct (Hd' Hd) as [Hne Hall].
    destruct d as [|a d]; [congruence|]; simpl in *.
    apply andb_true_iff in Hall as [Ha _].
    now apply decimal_not_space. }
  rewrite run_seq; apply run_group.
  - intros k' Hk'; apply number_match; auto; reflexivity.
  - rewrite run_seq.
    change (chars " ms " ++ Q ++ chars "ms" ++ S ++ N)
      with (chars " ms" ++ (chars " " ++ Q ++ chars "ms" ++ S ++ N)).
    rewrite run_lit.
    now apply runtime_rest_match.
Qed.

Lemma count_ms_rest (Q S N : str) :
  occurs (chars "ms") Q = false -> all_spaces S = true ->
  all_digits N = true ->
  count_ms (chars " " ++ Q ++ chars "ms" ++ S ++ N) = 1.
Proof.
  intros HQ HS HN.
  apply all_spaces_iff in HS as [_ HS].
  apply all_digits_iff in HN as [_ HN].
  change (count_ms (chars " " ++ Q ++ chars "ms" ++ S ++ N))
    with (count_ms (Q ++ Latin "m" :: Latin "s" :: S ++ N)).
  rewrite count_ms_app by reflexivity.
  rewrite (occurs_ms_count _ HQ).
  change (count_ms (Latin "m" :: Latin "s" :: S ++ N))
    with (1 + count_ms (S ++ N)).
  rewrite count_ms_none; [reflexivity|].
  rewrite forallb_app; apply andb_true_iff; split;
    rewrite forallb_forall in *; intros a Ha.
  - specialize (HS a Ha); simpl in HS.
    apply chr_eqb_eq in HS; now subst a.
  - specialize (HN a Ha).
    destruct (chr_eqb_spec a (Latin "m")); [subst a; discriminate HN|reflexivity].
Qed.

(** The first [.*] stops in front of the last number that is followed by
    " ms" and by a second "ms". *)
Lemma runtime_match_last (P d fr Q S N : str) :
  no_newline P = true -> all_decimals d = true -> is_fraction fr = true ->
  no_newline Q = true -> occurs (chars "ms") Q = false ->
  all_spaces S = true -> all_digits N = true ->
  re_match runtime_pattern
           (P ++ chars " " ++ (d ++ fr) ++ chars " ms " ++ Q
              ++ chars "ms" ++ S ++ N)
  = Some [(2, N); (1, d ++ fr)].
Proof.
  intros HP Hd Hf HQ Hms HS HN.
  unfold re_match; rewrite runtime_pattern_cut, run_seq.
  cbn [run]; apply star_prefix; [exact HP|].
  change (chars " " ++ (d ++ fr) ++ chars " ms " ++ Q ++ chars "ms" ++ S ++ N)
    with (Latin " " :: ((d ++ fr) ++ chars " ms " ++ Q ++ chars "ms" ++ S ++ N)).
  cbn [star]; change (cls_ok Dot (Latin " ")) with true; cbv iota.
  rewrite star_app_none.
  - apply (runtime_tail_match d fr Q S N); assumption.
  - intros a rest Ha; apply runtime_tail_head.
    now apply (number_chars d fr).
  - change (chars " ms " ++ Q ++ chars "ms" ++ S ++ N)
      with (Latin " " :: Latin "m" :: Latin "s"
              :: (chars " " ++ Q ++ chars "ms" ++ S ++ N)).
    do 3 (apply star_cons_none; [|reflexivity]).
    apply star_none; intros u v E.
    destruct (run runtime_tail v [] (fun _ c => Some c)) as [m|] eqn:Ev;
      [|reflexivity].
    apply runtime_tail_two_ms in Ev.
    assert (Hle : count_ms v <= 1).
    { rewrite <- (count_ms_rest Q S N Hms HS HN).
      generalize (count_ms_suffix u v); rewrite <- E.
      exact (fun h => h). }
    lia.
Qed.

Lemma py_float_decimals (N : str) :
  all_decimals N = true ->
  py_float (Some N) = Ok (dec_float (digits_value 0 N) 0).
Proof.
  intros H; pose proof H as H'.
  apply all_decimals_iff in H' as [Hne Hall].
  unfold py_float.
  rewrite <- (app_nil_r N) at 1.
  rewrite span_app by (auto; exact I).
  destruct N; [congruence|reflexivity].
Qed.

Lemma py_float_digits (N : str) :
  all_digits N = true ->
  py_float (Some N) = Ok (dec_float (digits_value 0 N) 0).
Proof. intros H; now apply py_float_decimals, all_digits_decimals. Qed.

Lemma py_float_number (d fr : str) :
  all_decimals d = true -> is_fraction fr = true ->
  exists x, py_float (Some (d ++ fr)) = Ok x.
Proof.
  intros Hd Hf.
  destruct fr as [|b fr].
  - rewrite app_nil_r, py_float_decimals; eauto.
  - apply is_fraction_cons in Hf as [-> Hf].
    apply all_decimals_iff in Hd as [Hne Hall].
    unfold py_float; rewrite span_app by (auto; reflexivity).
    destruct d; [congruence|]; rewrite Hf; eauto.
Qed.

(** The numerator is not the first number of the line when a later number
    is also followed by " ms" and a further "ms". *)
Lemma match_runtime_first_float_counterexample :
  match_runtime two_numbers_line = Ok (Some (2 / 3)%float)
  /\ match_runtime two_numbers_line <> Ok (Some (1 / 3)%float).
Proof.
  split; [reflexivity|].
  intros H.
  apply (f_equal (fun r => match r with
                           | Ok (Some q) => Prim2SF q
                           | _ => S754_nan
                           end)) in H.
  vm_compute in H; discriminate H.
Qed.

(** A zero divisor makes the matcher raise. *)
Lemma match_runtime_zero_divisor :
  match_runtime (chars "run 5 ms x ms 0") = Raise ZeroDivisionError.
Proof. reflexivity. Qed.

(** ** Header lines and the runtime pattern *)

Lemma header_match_value (db dt rest : str) :
  all_digits db = true -> all_digits dt = true -> no_head is_digit rest ->
  within_limit db = true -> within_limit dt = true ->
  match_block_thread_size
    (header_prefix ++ db ++ header_middle ++ dt ++ rest)
  = Ok (Some (digits_value 0 db, digits_value 0 dt)).
Proof.
  intros Hb Ht Hr Lb Lt.
  rewrite header_match_outcome by assumption.
  unfold header_result; now rewrite Lb, Lt.
Qed.

Lemma no_match_no_header (line : str) :
  matches_header line = false -> match_block_thread_size line = Ok None.
Proof.
  unfold matches_header, match_block_thread_size.
  now destruct (re_match header_pattern line).
Qed.

(** A line that the runtime pattern matches holds the letter m. *)
Lemma runtime_match_has_m (line : str) (m : caps) :
  re_match runtime_pattern line = Some m -> In (Latin "m") line.
Proof.
  unfold re_match; intros H.
  apply run_sound in H as (u & v & c' & -> & Hd & _).
  simpl in Hd; break_denot; subst.
  repeat (rewrite in_app_iff; simpl); tauto.
Qed.

Lemma digits_no_m (d : str) :
  forallb (latin is_digit) d = true -> ~ In (Latin "m") d.
Proof.
  rewrite forallb_forall; intros H Hin.
  specialize (H _ Hin); discriminate H.
Qed.

(** A line that is a header and nothing more is no runtime line. *)
Lemma exact_header_no_runtime (db dt : str) :
  all_digits db = true -> all_digits dt = true ->
  match_runtime (header_prefix ++ db ++ header_middle ++ dt) = Ok None.
Proof.
  intros Hb Ht; unfold match_runtime.
  destruct (re_match runtime_pattern _) as [m|] eqn:E; [|reflexivity].
  exfalso; apply runtime_match_has_m in E.
  apply all_digits_iff in Hb as [_ Hb], Ht as [_ Ht].
  repeat (apply in_app_or in E as [E|E]).
  - unfold header_prefix in E; simpl in E.
    repeat (destruct E as [E|E]; [discriminate E|]); exact E.
  - exact (digits_no_m _ Hb E).
  - unfold header_middle in E; simpl in E.
    repeat (destruct E as [E|E]; [discriminate E|]); exact E.
  - exact (digits_no_m _ Ht E).
Qed.

Section ParserFacts.

Variable G : Type.
Variable scipy_gmean : list float -> G.

(** On a header line the parser opens a group, whatever the runtime
    pattern finds on that line. *)
Lemma parse_line_header (st : parser_state G) (line : str) (nt : Z * Z) :
  match_block_thread_size line = Ok (Some nt) ->
  parse_line scipy_gmean st line
  = (_ <- match_runtime line ;; Ok (mk_state (Some nt) [] (save scipy_gmean st))).
Proof.
  intros H; unfold parse_line; rewrite H; reflexivity.
Qed.

Lemma parse_line_other (st : parser_state G) (line : str) :
  match_block_thread_size line = Ok None ->
  match_runtime line = Ok None ->
  parse_line scipy_gmean st line = Ok st.
Proof.
  intros H1 H2; unfold parse_line; rewrite H1, H2; reflexivity.
Qed.

Lemma parse_loop_app (st : parser_state G) (l1 l2 : list str) :
  parse_loop scipy_gmean st (l1 ++ l2)
  = (st' <- parse_loop scipy_gmean st l1 ;; parse_loop scipy_gmean st' l2).
Proof.
  revert st; induction l1 as [|l l1 IH]; intros st; simpl; auto.
  destruct (parse_line scipy_gmean st l) as [st1|e]; simpl; auto.
Qed.

End ParserFacts.


(** ** The parser: headers, early samples, zero samples *)

Section ParserRuns.

Variable G : Type.
Variable scipy_gmean : list float -> G.

Lemma save_seen (st : parser_state G) :
  map (@key G) (save scipy_gmean st) = seen st.
Proof.
  unfold save, seen; destruct st as [[[b t]|] rs res]; simpl.
  - now rewrite map_app.
  - now rewrite app_nil_r.
Qed.

Lemma parse_line_seen (st st' : parser_state G) (line : str) :
  parse_line scipy_gmean st line = Ok st' ->
  seen st' = seen st ++ header_of line.
Proof.
  unfold parse_line, header_of.
  destruct (match_block_thread_size line) as [[nt|]|e]; simpl;
    [| |discriminate].
  - destruct (match_runtime line) as [o|e]; simpl; [|discriminate].
    intros H; injection H as <-.
    unfold seen at 1; simpl; now rewrite save_seen.
  - destruct (match_runtime line) as [[r|]|e]; simpl; [| |discriminate].
    + destruct (truthy r); intros H; injection H as <-;
        now rewrite app_nil_r.
    + intros H; injection H as <-; now rewrite app_nil_r.
Qed.

Lemma parse_loop_seen (lines : list str) :
  forall st st',
    parse_loop scipy_gmean st lines = Ok st' ->
    seen st' = seen st ++ headers lines.
Proof.
  induction lines as [|l ls IH]; intros st st'; simpl.
  - intros H; injection H as <-; now rewrite app_nil_r.
  - destruct (parse_line scipy_gmean st l) as [st1|e] eqn:E; simpl;
      [|discriminate].
    intros H; rewrite (IH _ _ H), (parse_line_seen _ _ E).
    now rewrite <- app_assoc.
Qed.

Lemma same_output_save (st st' : parser_state G) :
  same_output st st' -> save scipy_gmean st = save scipy_gmean st'.
Proof.
  intros [->|(H1 & H2 & H3)]; [reflexivity|].
  unfold save; now rewrite H1, H2, H3.
Qed.

Lemma parse_line_same_output (st st' : parser_state G) (line : str) :
  same_output st st' ->
  res_rel (@same_output G) (parse_line scipy_gmean st line)
          (parse_line scipy_gmean st' line).
Proof.
  intros H; pose proof (same_output_save H) as Hs.
  destruct H as [->|(H1 & H2 & H3)].
  { destruct (parse_line scipy_gmean st' line); simpl; auto.
    now left. }
  unfold parse_line.
  destruct (match_block_thread_size line) as [[nt|]|e]; simpl; auto.
  - destruct (match_runtime line) as [o|e]; simpl; auto.
    left; now rewrite Hs.
  - destruct (match_runtime line) as [[r|]|e]; simpl; auto.
    + destruct (truthy r); simpl; right; auto.
    + right; auto.
Qed.

Lemma parse_loop_same_output (lines : list str) :
  forall st st',
    same_output st st' ->
    res_rel (@same_output G) (parse_loop scipy_gmean st lines)
            (parse_loop scipy_gmean st' lines).
Proof.
  induction lines as [|l ls IH]; intros st st' H; simpl; auto.
  pose proof (parse_line_same_output l H) as Hl.
  destruct (parse_line scipy_gmean st l) as [s1|e1],
           (parse_line scipy_gmean st' l) as [s2|e2]; simpl in *;
    auto; contradiction.
Qed.

Lemma drop_early_runtimes_loop (lines : list str) :
  forall st,
    current_block_thread_size st = None ->
    res_rel (@same_output G)
            (parse_loop scipy_gmean st (drop_early_runtimes lines))
            (parse_loop scipy_gmean st lines).
Proof.
  induction lines as [|l ls IH]; intros st Hst.
  - simpl; now left.
  - cbn [drop_early_runtimes].
    destruct (matches_header l) eqn:Eh.
    { apply parse_loop_same_output; now left. }
    pose proof (no_match_no_header l Eh) as Eo.
    destruct (is_runtime_line l) eqn:Er; unfold is_runtime_line in Er.
    + destruct (match_runtime l) as [[r|]|e] eqn:Em; try discriminate.
      cbn [parse_loop]; unfold parse_line; rewrite Eo, Em.
      cbn [bind].
      destruct (truthy r); [|cbn [bind]; now apply IH].
      cbn [bind].
      set (st1 := mk_state _ _ _).
      assert (H1 : same_output st st1)
        by (right; subst st1; simpl; auto).
      pose proof (parse_loop_same_output ls H1) as Hl.
      pose proof (IH st Hst) as Hd.
      destruct (parse_loop scipy_gmean st (drop_early_runtimes ls)),
               (parse_loop scipy_gmean st ls),
               (parse_loop scipy_gmean st1 ls); simpl in *;
        try contradiction; try congruence.
      destruct Hd as [->|(A1 & A2 & A3)], Hl as [->|(B1 & B2 & B3)];
        try (now left); right; repeat split; congruence.
    + cbn [parse_loop]; unfold parse_line; rewrite Eo; cbn [bind].
      destruct (match_runtime l) as [[r|]|e]; try discriminate;
        cbn [bind res_rel]; auto.
Qed.

(** What a run of the loop saves: the records of the state, the record of
    its open group with the samples up to the next header, and one record
    for every group of the lines. *)
Lemma parse_loop_groups (lines : list str) :
  forall st st',
    parse_loop scipy_gmean st lines = Ok st' ->
    save scipy_gmean st'
    = results st ++ open_record scipy_gmean st (group_samples lines)
        ++ records scipy_gmean lines.
Proof.
  induction lines as [|l ls IH]; intros st st'; cbn [parse_loop].
  - intros H; injection H as <-.
    unfold save, open_record, records, record_of; cbn.
    destruct (current_block_thread_size st) as [[b t]|]; cbn;
      now rewrite ?app_nil_r.
  - unfold parse_line, records; cbn [group_samples groups].
    unfold is_header, sample_of.
    destruct (match_block_thread_size l) as [[nt|]|e]; cbn [bind];
      [| |discriminate].
    + destruct (match_runtime l) as [o|e]; cbn [bind]; [|discriminate].
      intros H; rewrite (IH _ _ H).
      unfold save, open_record, records, record_of; cbn.
      destruct (current_block_thread_size st) as [[b t]|]; cbn;
        now rewrite ?app_nil_r, <- ?app_assoc.
    + destruct (match_runtime l) as [[r|]|e]; cbn [bind]; [| |discriminate].
      * destruct (truthy r); intros H; rewrite (IH _ _ H);
          unfold open_record, records; cbn;
          destruct (current_block_thread_size st) as [[b t]|]; cbn;
          now rewrite <- ?app_assoc.
      * intros H; now rewrite (IH _ _ H).
Qed.

Lemma parse_lines_records (lines : list str) (rs : list (result G)) :
  parse_lines scipy_gmean lines = Ok rs -> rs = records scipy_gmean lines.
Proof.
  unfold parse_lines.
  destruct (parse_loop scipy_gmean (initial_state G) lines) as [st|e] eqn:E;
    cbn [bind]; [|discriminate].
  intros H; injection H as <-.
  now rewrite (parse_loop_groups _ _ E).
Qed.

End ParserRuns.

Lemma groups_app_header (pre post : list str) (h : str) (nt : Z * Z) :
  match_block_thread_size h = Ok (Some nt) ->
  In (nt, group_samples post) (groups (pre ++ h :: post)).
Proof.
  intros Hh; induction pre as [|l pre IH]; cbn [app groups].
  - rewrite Hh; now left.
  - destruct (match_block_thread_size l) as [[nt'|]|e]; auto; now right.
Qed.

(** The log of the end-to-end example: two groups, two and one samples. *)
Example parse_file_two_groups :
  parse_file (fun rs : list float => rs)
             [chars "# OPEN3D_PARFOR_BLOCK: 1, OPEN3D_PARFOR_THREAD: 2";
              chars "run x 10.0 ms y 2.0 ms 1";
              chars "run x 20.0 ms y 2.0 ms 1";
              chars "# OPEN3D_PARFOR_BLOCK: 4, OPEN3D_PARFOR_THREAD: 8";
              chars "run x 8.0 ms y 2.0 ms 2"]
  = Ok [mk_result 1 2 [10%float; 20%float]; mk_result 4 8 [4%float]].
Proof. reflexivity. Qed.

(** A header without runtime lines still yields a record. *)
Lemma empty_group_counterexample :
  parse_file (fun rs : list float => rs) [lone_header]
  = Ok [mk_result 1 2 []].
Proof. reflexivity. Qed.

Lemma drop_early_runtimes_filter (pre : list str) :
  existsb matches_header pre = false ->
  (forall rest,
      match rest with
      | [] => True
      | h :: _ => matches_header h = true
      end ->
      drop_early_runtimes (pre ++ rest)
      = filter (fun l => negb (is_runtime_line l)) pre ++ rest).
Proof.
  induction pre as [|l pre IH]; intros Hp rest Hr.
  - destruct rest as [|h rest]; [reflexivity|].
    cbn [app drop_early_runtimes filter]; now rewrite Hr.
  - cbn [existsb] in Hp; apply orb_false_iff in Hp as [Hl Hp].
    cbn [app drop_early_runtimes filter]; rewrite Hl.
    destruct (is_runtime_line l); cbn [negb app]; now rewrite IH.
Qed.

(** C9: runtime lines that come before the first header do not change what
    the parser returns: the log without them gives the same result, the
    records when it returns and the exception when it raises.  The first
    header is the first line that the header pattern matches, a runtime
    line is a line on which the runtime matcher returns a value, and
    [drop_early_runtimes] removes the runtime lines in front of the first
    header and nothing else. *)
Theorem early_runtimes_ignored (G : Type) (scipy_gmean : list float -> G) :
  (forall lines,
      parse_lines scipy_gmean (drop_early_runtimes lines)
      = parse_lines scipy_gmean lines)
  /\ (forall raw raw',
         map strip raw' = drop_early_runtimes (map strip raw) ->
         parse_file scipy_gmean raw' = parse_file scipy_gmean raw)
  /\ (forall pre h rest,
         existsb matches_header pre = false -> matches_header h = true ->
         drop_early_runtimes (pre ++ h :: rest)
         = filter (fun l => negb (is_runtime_line l)) pre ++ h :: rest)
  /\ (forall lines,
         existsb matches_header lines = false ->
         drop_early_runtimes lines
         = filter (fun l => negb (is_runtime_line l)) lines).
Proof.
  assert (H : forall lines,
             parse_lines scipy_gmean (drop_early_runtimes lines)
             = parse_lines scipy_gmean lines).
  { intros lines; unfold parse_lines.
    pose proof (drop_early_runtimes_loop scipy_gmean lines
                  (initial_state G) eq_refl) as Hr.
    destruct (parse_loop scipy_gmean (initial_state G)
                         (drop_early_runtimes lines)),
             (parse_loop scipy_gmean (initial_state G) lines);
      simpl in *; try contradiction; [|congruence].
    now rewrite (same_output_save scipy_gmean Hr). }
  split; [exact H|].
  split; [intros raw raw' E; unfold parse_file; now rewrite E, H|].
  split.
  - intros pre h rest Hp Hh.
    now apply (drop_early_runtimes_filter pre Hp (h :: rest)).
  - intros lines Hp.
    pose proof (drop_early_runtimes_filter lines Hp [] I) as E.
    now rewrite !app_nil_r in E.
Qed.

Lemma early_runtimes_ignored_witness :
  parse_file (fun rs : list float => rs)
             [lone_header; chars "run 8.0 ms x ms 2"]
  = parse_file (fun rs : list float => rs)
               [chars "run 3.0 ms x ms 1"; lone_header;
                chars "run 8.0 ms x ms 2"].
Proof.
  exact (proj1 (proj2 (early_runtimes_ignored (fun rs : list float => rs)))
               [chars "run 3.0 ms x ms 1"; lone_header;
                chars "run 8.0 ms x ms 2"]
               [lone_header; chars "run 8.0 ms x ms 2"] eq_refl).
Defined.

(** A header of 4301 digits in front, with runtime text after it, is the
    first header of its log: the log raises with it. *)
Example early_long_header :
  drop_early_runtimes [long_header ++ chars " x 3 ms y ms 4"; lone_header]
  = [long_header ++ chars " x 3 ms y ms 4"; lone_header]
  /\ parse_lines (fun rs : list float => rs)
                 [long_header ++ chars " x 3 ms y ms 4"; lone_header]
     = Raise (ValueError_digit_limit 4301).
Proof. split; vm_compute; reflexivity. Qed.

(** C10: a line on which the runtime matcher returns zero adds no sample:
    on a header line the parser opens the new group with no samples, on any
    other line it leaves its state as it is, so that the log gives the same
    records with and without that line. *)
Theorem zero_runtime_discarded
        (G : Type) (scipy_gmean : list float -> G) (line : str) (r : float) :
  match_runtime line = Ok (Some r) -> PrimFloat.eqb r 0 = true ->
  (forall st nt,
      match_block_thread_size line = Ok (Some nt) ->
      parse_line scipy_gmean st line
      = Ok (mk_state (Some nt) [] (save scipy_gmean st)))
  /\ (match_block_thread_size line = Ok None ->
      (forall st, parse_line scipy_gmean st line = Ok st)
      /\ (forall pre post,
             parse_lines scipy_gmean (pre ++ line :: post)
             = parse_lines scipy_gmean (pre ++ post))).
Proof.
  intros Hm Hz.
  assert (Hst : match_block_thread_size line = Ok None ->
                forall st, parse_line scipy_gmean st line = Ok st).
  { intros Hh st; unfold parse_line; rewrite Hh, Hm; cbn [bind].
    unfold truthy; now rewrite Hz. }
  split; [|intros Hh; split; [now apply Hst|]].
  - intros st nt Hh; unfold parse_line; rewrite Hh, Hm; reflexivity.
  - intros pre post; unfold parse_lines.
    rewrite !parse_loop_app.
    destruct (parse_loop scipy_gmean (initial_state G) pre) as [st|e];
      simpl; [|reflexivity].
    now rewrite (Hst Hh).
Qed.

Lemma zero_runtime_discarded_witness :
  parse_line (fun rs : list float => rs)
             (mk_state (Some (1, 2)%Z) [3%float] []) zero_runtime_line
  = Ok (mk_state (Some (1, 2)%Z) [3%float] []).
Proof.
  exact (proj1 (proj2 (zero_runtime_discarded (fun rs : list float => rs)
                         zero_runtime_line eq_refl eq_refl) eq_refl)
               (mk_state (Some (1, 2)%Z) [3%float] [])).
Defined.

(** ** The grid builder *)

Lemma find_index_in (v : Z) (l : list Z) :
  In v l ->
  exists i, find_index v l = Some i /\ (i < List.length l)%nat /\
            nth_error l i = Some v.
Proof.
  induction l as [|a l IH]; simpl; [easy|].
  intros H; destruct (Z.eqb_spec a v) as [->|Hne].
  - exists 0%nat; repeat split; lia.
  - destruct H as [H|H]; [congruence|].
    destruct (IH H) as (i & -> & Hi & Hn).
    exists (S i); repeat split; auto; lia.
Qed.

Lemma find_index_not_in (v : Z) (l : list Z) :
  ~ In v l -> find_index v l = None.
Proof.
  induction l as [|a l IH]; simpl; [easy|].
  intros H; destruct (Z.eqb_spec a v) as [->|Hne]; [tauto|].
  rewrite IH; tauto.
Qed.

Lemma set_nth_spec (A : Type) (l : list A) (i : nat) (v : A) :
  (i < List.length l)%nat ->
  exists l', set_nth l i v = Some l' /\
             List.length l' = List.length l /\
             nth_error l' i = Some v /\
             forall j, j <> i -> nth_error l' j = nth_error l j.
Proof.
  revert i; induction l as [|a l IH]; intros i Hi; simpl in *; [lia|].
  destruct i as [|i].
  - exists (v :: l); repeat split; auto.
    intros [|j] Hj; [congruence|reflexivity].
  - destruct (IH i) as (l' & -> & Hlen & Hn & Ho); [lia|].
    exists (a :: l'); simpl; repeat split; auto.
    intros [|j] Hj; simpl; auto.
Qed.

Lemma set_cell_spec (g : grid) (y x : nat) (v : float) :
  grid_shape g ->
  (y < List.length block_sizes)%nat -> (x < List.length thread_sizes)%nat ->
  exists g', set_cell g y x v = Ok g' /\ grid_shape g' /\
             cell g' y x = Some v /\
             forall y' x', (y', x') <> (y, x) ->
                           cell g' y' x' = cell g y' x'.
Proof.
  intros [Hlen Hrows] Hy Hx; unfold set_cell.
  destruct (nth_error g y) as [row|] eqn:Er;
    [|apply nth_error_None in Er; lia].
  assert (Hrow : List.length row = List.length thread_sizes).
  { rewrite Forall_forall in Hrows; apply Hrows.
    eapply nth_error_In; eauto. }
  destruct (@set_nth_spec float row x v) as (row' & -> & Hl' & Hn' & Ho');
    [lia|].
  destruct (@set_nth_spec (list float) g y row')
    as (g' & -> & Hlg & Hng & Hog); [lia|].
  exists g'; split; [reflexivity|]; split; [|split].
  - split; [congruence|].
    apply Forall_forall; intros r Hr.
    apply In_nth_error in Hr as (j & Hj).
    destruct (Nat.eq_dec j y) as [->|Hne].
    + rewrite Hng in Hj; injection Hj as <-; congruence.
    + rewrite (Hog _ Hne) in Hj.
      rewrite Forall_forall in Hrows; apply Hrows.
      eapply nth_error_In; eauto.
  - unfold cell; now rewrite Hng.
  - intros y' x' Hne; unfold cell.
    destruct (Nat.eq_dec y' y) as [->|Hy'].
    + rewrite Hng, Er; apply Ho'; congruence.
    + now rewrite (Hog _ Hy').
Qed.

Lemma initial_grid_shape : grid_shape initial_grid.
Proof.
  split; [reflexivity|].
  unfold initial_grid; apply Forall_forall; intros row Hr.
  apply repeat_spec in Hr; subst row; apply repeat_length.
Qed.

Lemma fill_step_candidate (g : grid) (out : list (Z * Z * nat * nat))
      (r : result float) :
  grid_shape g -> candidate_sizes r ->
  exists y x g',
    nth_error block_sizes y = Some (block_size r) /\
    nth_error thread_sizes x = Some (thread_size r) /\
    py_index block_sizes (block_size r) = Ok y /\
    py_index thread_sizes (thread_size r) = Ok x /\
    fill_step (g, out) r
    = Ok (g', out ++ [(block_size r, thread_size r, y, x)]) /\
    grid_shape g' /\
    cell g' y x = Some (round_2f (gmean r)) /\
    forall y' x', (y', x') <> (y, x) -> cell g' y' x' = cell g y' x'.
Proof.
  intros Hg [Hb Ht].
  apply find_index_in in Hb as (y & Ey & Hy & Ny).
  apply find_index_in in Ht as (x & Ex & Hx & Nx).
  destruct (set_cell_spec (round_2f (gmean r)) Hg Hy Hx)
    as (g' & Es & Hg' & Hc & Ho).
  exists y, x, g'; unfold fill_step, py_index.
  rewrite Ey, Ex; cbn [bind]; rewrite Es; cbn [bind].
  repeat split; auto; apply Hg'.
Qed.

Lemma fill_step_block_missing (st : fill_state) (r : result float) :
  ~ In (block_size r) block_sizes ->
  fill_step st r = Raise (ValueError_not_in_list (block_size r)).
Proof.
  intros H; destruct st as [g out]; unfold fill_step, py_index.
  now rewrite (find_index_not_in _ _ H).
Qed.

Lemma fill_step_thread_missing (st : fill_state) (r : result float) :
  In (block_size r) block_sizes -> ~ In (thread_size r) thread_sizes ->
  fill_step st r = Raise (ValueError_not_in_list (thread_size r)).
Proof.
  intros Hb H; destruct st as [g out]; unfold fill_step, py_index.
  apply find_index_in in Hb as (y & -> & _).
  now rewrite (find_index_not_in _ _ H).
Qed.

Lemma candidate_sizes_dec (r : result float) :
  {candidate_sizes r} + {~ candidate_sizes r}.
Proof.
  unfold candidate_sizes.
  destruct (in_dec Z.eq_dec (block_size r) block_sizes);
    destruct (in_dec Z.eq_dec (thread_size r) thread_sizes); tauto.
Qed.

Lemma fill_loop_aborts (rs : list (result float)) :
  forall g out,
    grid_shape g -> Exists (fun r => ~ candidate_sizes r) rs ->
    exists r v,
      In r rs /\ (v = block_size r \/ v = thread_size r) /\
      ~ In v block_sizes /\
      fill_loop (g, out) rs = Raise (ValueError_not_in_list v).
Proof.
  induction rs as [|r rs IH]; intros g out Hg Hex; [inversion Hex|].
  cbn [fill_loop].
  destruct (candidate_sizes_dec r) as [Hc|Hn].
  - destruct (fill_step_candidate out Hg Hc)
      as (y & x & g' & _ & _ & _ & _ & -> & Hg' & _).
    cbn [bind].
    inversion Hex as [? ? H|? ? H]; subst; [contradiction|].
    destruct (IH g' (out ++ [(block_size r, thread_size r, y, x)]) Hg' H)
      as (r' & v & Hin & Hv & Hnv & E).
    exists r', v; repeat split; auto; now right.
  - unfold candidate_sizes in Hn.
    destruct (in_dec Z.eq_dec (block_size r) block_sizes) as [Hb|Hb].
    + assert (Ht : ~ In (thread_size r) thread_sizes) by tauto.
      exists r, (thread_size r); rewrite fill_step_thread_missing by auto.
      repeat split; auto; now left.
    + exists r, (block_size r); rewrite fill_step_block_missing by auto.
      repeat split; auto; now left.
Qed.

Lemma fill_loop_app (rs1 rs2 : list (result float)) :
  forall st,
    fill_loop st (rs1 ++ rs2)
    = (st' <- fill_loop st rs1 ;; fill_loop st' rs2).
Proof.
  induction rs1 as [|r rs1 IH]; intros st; simpl; auto.
  destruct (fill_step st r); simpl; auto.
Qed.

Lemma fill_loop_candidates (rs : list (result float)) :
  forall g out,
    grid_shape g -> Forall candidate_sizes rs ->
    exists g' out', fill_loop (g, out) rs = Ok (g', out') /\ grid_shape g'.
Proof.
  induction rs as [|r rs IH]; intros g out Hg Hall; cbn [fill_loop];
    [eauto|].
  inversion Hall as [|? ? Hr Hrs]; subst.
  destruct (fill_step_candidate out Hg Hr)
    as (y & x & g' & _ & _ & _ & _ & -> & Hg' & _).
  cbn [bind]; eauto.
Qed.


Lemma initial_grid_cell (y x : nat) :
  (y < 9)%nat -> (x < 9)%nat -> cell initial_grid y x = Some (-1)%float.
Proof.
  intros Hy Hx.
  do 9 (destruct y as [|y];
        [do 9 (destruct x as [|x]; [reflexivity|]); lia|]).
  lia.
Qed.

(** C5: a record whose block size or thread size is not among the nine
    candidates makes the grid builder raise the [ValueError] of
    [list.index], which names the size that was not found (the block size
    when it is missing, otherwise the thread size); the whole loop aborts
    with such an error when any record is of that kind; block size 3 is
    one. *)
Theorem grid_builder_rejects_unknown_size :
  (forall st r,
      ~ In (block_size r) block_sizes ->
      fill_step st r = Raise (ValueError_not_in_list (block_size r)))
  /\ (forall st r,
         In (block_size r) block_sizes ->
         ~ In (thread_size r) thread_sizes ->
         fill_step st r = Raise (ValueError_not_in_list (thread_size r)))
  /\ (forall rs,
         Exists (fun r => ~ candidate_sizes r) rs ->
         exists r v,
           In r rs /\ (v = block_size r \/ v = thread_size r) /\
           ~ In v block_sizes /\
           fill_grid rs = Raise (ValueError_not_in_list v))
  /\ (forall st t m,
         fill_step st (mk_result 3 t m) = Raise (ValueError_not_in_list 3)).
Proof.
  split; [exact fill_step_block_missing|].
  split; [exact fill_step_thread_missing|].
  split.
  - intros rs H; unfold fill_grid.
    apply fill_loop_aborts; [exact initial_grid_shape|exact H].
  - intros st t m.
    apply (fill_step_block_missing st (mk_result 3 t m)).
    simpl; lia.
Qed.

Lemma grid_builder_rejects_unknown_size_witness :
  fill_step (initial_grid, []) (mk_result 5 4 1.5%float)
  = Raise (ValueError_not_in_list 5).
Proof.
  apply (proj1 grid_builder_rejects_unknown_size
               (initial_grid, []) (mk_result 5 4 1.5%float)).
  simpl; lia.
Defined.







(** * Lines, logs and grids in general *)

(** ** What the runtime matcher accepts *)

Lemma runtime_match_form (line : str) (m : caps) :
  re_match runtime_pattern line = Some m ->
  exists X N, m = [(2, N); (1, X)] /\ runtime_form line X N.
Proof.
  unfold re_match; intros H.
  apply run_sound in H as (u & v & c' & -> & Hd & Hk).
  injection Hk as <-.
  simpl in Hd.
  destruct Hd as (P & r1 & c1 & -> & (HP & ->) &
                  S1 & r2 & c2 & -> & (H11 & H12 & ->) &
                  X & r3 & c3 & -> &
                  (c0 & (d & fr & c4 & -> & (Hd1 & Hd2 & ->) & Hfr) & ->) &
                  L1 & r4 & c5 & -> & (-> & ->) &
                  S2 & r5 & c6 & -> & (H21 & H22 & ->) &
                  Q & r6 & c7 & -> & (HQ & ->) &
                  L2 & r7 & c8 & -> & (-> & ->) &
                  S3 & r8 & c9 & -> & (H31 & H32 & ->) &
                  N & r9 & c10 & -> &
                  (c11 & (HN1 & HN2 & ->) & ->) & (-> & Ht & ->)).
  assert (Hf : is_fraction fr = true /\ c0 = []).
  { destruct Hfr as [[-> ->]|Hfr]; [now split|].
    destruct Hfr as (u1 & u2 & c1 & -> & (-> & ->) & Hne & Hall & ->).
    split; [|reflexivity]; simpl.
    apply all_decimals_iff; now split. }
  destruct Hf as [Hf ->].
  exists (d ++ fr), N; split; [reflexivity|].
  exists P, S1, d, fr, S2, Q, S3, v.
  repeat split; auto;
    try (apply all_digits_iff; now split);
    try (apply all_decimals_iff; now split);
    try (apply all_spaces_iff; now split).
  repeat (rewrite <- app_assoc; simpl); reflexivity.
Qed.

Lemma runtime_form_match (line X N : str) :
  runtime_form line X N -> re_match runtime_pattern line <> None.
Proof.
  intros (P & S1 & d & fr & S2 & Q & S3 & tail & -> & Hd & Hf & HN
          & H1 & H2 & H3 & HP & HQ & Ht & ->).
  apply all_decimals_iff in Hd as [Hd1 Hd2].
  apply all_digits_iff in HN as [HN1 HN2].
  apply all_spaces_iff in H1 as [H11 H12], H2 as [H21 H22], H3 as [H31 H32].
  unfold re_match.
  replace (P ++ S1 ++ (d ++ fr) ++ chars " ms" ++ S2 ++ Q ++ chars "ms"
             ++ S3 ++ N ++ tail)
    with ((P ++ S1 ++ (d ++ fr) ++ chars " ms" ++ S2 ++ Q ++ chars "ms"
             ++ S3 ++ N ++ []) ++ tail)
    by (repeat (rewrite <- app_assoc; simpl); reflexivity).
  apply run_complete with (c' := [(2, N); (1, d ++ fr)]); [|discriminate].
  simpl.
  exists P, (S1 ++ (d ++ fr) ++ chars " ms" ++ S2 ++ Q ++ chars "ms"
               ++ S3 ++ N ++ []), [].
  repeat split; auto.
  exists S1, ((d ++ fr) ++ chars " ms" ++ S2 ++ Q ++ chars "ms"
                ++ S3 ++ N ++ []), [].
  repeat split; auto.
  exists (d ++ fr), (chars " ms" ++ S2 ++ Q ++ chars "ms" ++ S3 ++ N ++ []),
    [(1, d ++ fr)].
  repeat split.
  { exists []; split; [|reflexivity].
    exists d, fr, []; repeat split; auto.
    destruct fr as [|b fr]; [now left|right].
    apply is_fraction_cons in Hf as [-> Hf].
    apply all_decimals_iff in Hf as [Hf1 Hf2].
    exists (chars "."), fr, []; repeat split; auto. }
  exists (chars " ms"), (S2 ++ Q ++ chars "ms" ++ S3 ++ N ++ []),
    [(1, d ++ fr)].
  repeat split.
  exists S2, (Q ++ chars "ms" ++ S3 ++ N ++ []), [(1, d ++ fr)].
  repeat split; auto.
  exists Q, (chars "ms" ++ S3 ++ N ++ []), [(1, d ++ fr)].
  repeat split; auto.
  exists (chars "ms"), (S3 ++ N ++ []), [(1, d ++ fr)].
  repeat split.
  exists S3, (N ++ []), [(1, d ++ fr)].
  repeat split; auto.
  exists N, [], [(2, N); (1, d ++ fr)].
  repeat split; auto.
  exists [(1, d ++ fr)]; repeat split; auto.
Qed.

Lemma runtime_form_number (line X N : str) :
  runtime_form line X N ->
  exists x n, py_float (Some X) = Ok x /\ py_float (Some N) = Ok n.
Proof.
  intros (P & S1 & d & fr & S2 & Q & S3 & tail & -> & Hd & Hf & HN & _).
  destruct (py_float_number d fr Hd Hf) as (x & Hx).
  exists x, (dec_float (digits_value 0 N) 0); split; [exact Hx|].
  now apply py_float_digits.
Qed.

(** The three outcomes of the runtime matcher on a line. *)
Lemma match_runtime_cases (line : str) :
  (re_match runtime_pattern line = None /\ match_runtime line = Ok None)
  \/ exists X N x n,
      runtime_form line X N /\
      py_float (Some X) = Ok x /\ py_float (Some N) = Ok n /\
      match_runtime line
      = if PrimFloat.eqb n 0 then Raise ZeroDivisionError
        else Ok (Some (x / n)%float).
Proof.
  unfold match_runtime.
  destruct (re_match runtime_pattern line) as [m|] eqn:E; [right|now left].
  apply runtime_match_form in E as (X & N & -> & Hform).
  destruct (runtime_form_number Hform) as (x & n & Hx & Hn).
  exists X, N, x, n; repeat split; auto.
  cbn [group Nat.eqb]; rewrite Hx, Hn; cbn [bind]; unfold float_div.
  now destruct (PrimFloat.eqb n 0).
Qed.

(** The trailing integer of a runtime line is fixed by the line. *)
Lemma runtime_form_integer_unique (line X N X' N' : str) :
  runtime_form line X N -> runtime_form line X' N' -> N = N'.
Proof.
  intros (P & S1 & d & fr & S2 & Q & S3 & tail & _ & _ & _ & HN
          & _ & _ & H3 & _ & _ & Ht & ->)
         (P' & S1' & d' & fr' & S2' & Q' & S3' & tail' & _ & _ & _ & HN'
          & _ & _ & H3' & _ & _ & Ht' & E).
  apply all_digits_iff in HN as [HN1 HN2], HN' as [HN1' HN2'].
  apply all_spaces_iff in H3 as [H31 H32], H3' as [H31' H32'].
  destruct (run_of_char_last _ H31 H32) as (T & ->).
  destruct (run_of_char_last _ H31' H32') as (T' & ->).
  assert (Hsp : latin is_digit (Latin " ") = false) by reflexivity.
  assert (Hnl : latin is_digit newline = false) by reflexivity.
  set (A := P ++ S1 ++ X ++ chars " ms" ++ S2 ++ Q ++ chars "ms" ++ T) in *.
  set (A' := P' ++ S1' ++ X' ++ chars " ms" ++ S2' ++ Q' ++ chars "ms" ++ T')
    in *.
  assert (EL : forall t, P ++ S1 ++ X ++ chars " ms" ++ S2 ++ Q ++ chars "ms"
                           ++ (T ++ [Latin " "]) ++ N ++ t
                         = A ++ Latin " " :: N ++ t).
  { intros t; subst A; repeat (rewrite <- app_assoc; simpl); reflexivity. }
  assert (ER : forall t, P' ++ S1' ++ X' ++ chars " ms" ++ S2' ++ Q'
                           ++ chars "ms" ++ (T' ++ [Latin " "]) ++ N' ++ t
                         = A' ++ Latin " " :: N' ++ t).
  { intros t; subst A'; repeat (rewrite <- app_assoc; simpl); reflexivity. }
  rewrite EL, ER in E; clear EL ER.
  destruct Ht as [-> | ->], Ht' as [-> | ->].
  - rewrite !app_nil_r in E.
    now apply (last_run_unique (latin is_digit)) in E.
  - rewrite app_nil_r in E.
    replace (A' ++ Latin " " :: N' ++ [newline])
      with ((A' ++ Latin " " :: N') ++ newline :: []) in E
      by (repeat (rewrite <- app_assoc; simpl); reflexivity).
    apply (last_run_unique (latin is_digit)) in E; auto; congruence.
  - rewrite app_nil_r in E.
    replace (A ++ Latin " " :: N ++ [newline])
      with ((A ++ Latin " " :: N) ++ newline :: []) in E
      by (repeat (rewrite <- app_assoc; simpl); reflexivity).
    apply (last_run_unique (latin is_digit)) in E; auto; congruence.
  - replace (A ++ Latin " " :: N ++ [newline])
      with ((A ++ Latin " " :: N) ++ newline :: []) in E
      by (repeat (rewrite <- app_assoc; simpl); reflexivity).
    replace (A' ++ Latin " " :: N' ++ [newline])
      with ((A' ++ Latin " " :: N') ++ newline :: []) in E
      by (repeat (rewrite <- app_assoc; simpl); reflexivity).
    apply app_inj_tail in E as [E _].
    now apply (last_run_unique (latin is_digit)) in E.
Qed.

Lemma all_zeros_value (N : str) :
  all_zeros N = true -> py_float (Some N) = Ok 0%float.
Proof.
  intros H.
  assert (Hall : forallb (cls_ok (Ch "0")) N = true /\ N <> []).
  { destruct N; [discriminate|split; [exact H|discriminate]]. }
  destruct Hall as [Hall Hne].
  assert (Hd : forallb (latin is_digit) N = true /\ digits_value 0 N = 0%Z).
  { clear H Hne; induction N as [|a N IH]; [now split|].
    simpl in Hall; apply andb_true_iff in Hall as [Ha Hall].
    apply chr_eqb_eq in Ha; subst a.
    destruct (IH Hall) as [IH1 IH2]; split; simpl; auto. }
  destruct Hd as [Hd Hv].
  rewrite py_float_digits by (apply all_digits_iff; now split).
  now rewrite Hv.
Qed.

(** X1: On a line of the runtime shape the matcher does not return [None]; on
    any other line it does. *)
Theorem match_runtime_none_iff (line : str) :
  match_runtime line = Ok None <-> ~ exists X N, runtime_form line X N.
Proof.
  split.
  - intros H (X & N & Hform).
    apply runtime_form_match in Hform.
    destruct (match_runtime_cases line) as [[E _]|(X' & N' & x & n & _ & _ & _ & E)];
      [congruence|].
    rewrite E in H; destruct (PrimFloat.eqb n 0); discriminate H.
  - intros H.
    destruct (match_runtime_cases line) as [[_ E]|(X & N & _ & _ & Hform & _)];
      [exact E|].
    exfalso; apply H; now exists X, N.
Qed.

Lemma match_runtime_none_iff_witness :
  ~ exists X N, runtime_form (chars "hello world") X N.
Proof.
  exact (proj1 (match_runtime_none_iff (chars "hello world")) eq_refl).
Defined.

(** X2: A value that the runtime matcher returns is the quotient of the number
    and of the trailing integer of a decomposition of the line, the integer
    not being zero as a float. *)
Theorem match_runtime_value (line : str) (q : float) :
  match_runtime line = Ok (Some q) ->
  exists X N x n,
    runtime_form line X N /\
    py_float (Some X) = Ok x /\ py_float (Some N) = Ok n /\
    PrimFloat.eqb n 0 = false /\ q = (x / n)%float.
Proof.
  intros H.
  destruct (match_runtime_cases line)
    as [[_ E]|(X & N & x & n & Hform & Hx & Hn & E)]; [congruence|].
  exists X, N, x, n; rewrite E in H.
  destruct (PrimFloat.eqb n 0); [discriminate H|].
  repeat split; auto; congruence.
Qed.

Lemma match_runtime_value_witness :
  exists X N x n,
    runtime_form (chars "foo 12.0 ms bar 4 ms 2") X N /\
    py_float (Some X) = Ok x /\ py_float (Some N) = Ok n /\
    PrimFloat.eqb n 0 = false /\ 6%float = (x / n)%float.
Proof.
  exact (match_runtime_value (chars "foo 12.0 ms bar 4 ms 2") eq_refl).
Defined.

(** X3: The runtime matcher raises nothing but [ZeroDivisionError], and only on
    a line of the runtime shape whose trailing integer is zero as a float. *)
Theorem match_runtime_raises (line : str) (e : exn) :
  match_runtime line = Raise e ->
  e = ZeroDivisionError /\
  exists X N n,
    runtime_form line X N /\ py_float (Some N) = Ok n /\
    PrimFloat.eqb n 0 = true.
Proof.
  intros H.
  destruct (match_runtime_cases line)
    as [[_ E]|(X & N & x & n & Hform & Hx & Hn & E)]; [congruence|].
  rewrite E in H.
  destruct (PrimFloat.eqb n 0) eqn:En; [|discriminate H].
  split; [congruence|].
  exists X, N, n; auto.
Qed.

Lemma match_runtime_raises_witness :
  ZeroDivisionError = ZeroDivisionError /\
  exists X N n,
    runtime_form (chars "run 5 ms x ms 0") X N /\
    py_float (Some N) = Ok n /\ PrimFloat.eqb n 0 = true.
Proof.
  exact (match_runtime_raises (chars "run 5 ms x ms 0") eq_refl).
Defined.

(** A line whose number is written with a digit beyond code point 255: the
    Arabic-Indic digit three, U+0663. *)
Example match_runtime_wide_digit :
  match_runtime (chars "run " ++ [Wide 1635 (Some 3) false]
                   ++ chars " ms x ms 2")
  = Ok (Some 1.5%float).
Proof. reflexivity. Qed.

(** X4: A line of the runtime shape whose trailing integer is written with
    zeros only makes the runtime matcher raise [ZeroDivisionError]. *)
Theorem match_runtime_zero_integer (line X N : str) :
  runtime_form line X N -> all_zeros N = true ->
  match_runtime line = Raise ZeroDivisionError.
Proof.
  intros Hform Hz.
  destruct (match_runtime_cases line)
    as [[E _]|(X' & N' & x & n & Hform' & Hx & Hn & E)].
  - now apply runtime_form_match in Hform.
  - rewrite (runtime_form_integer_unique Hform' Hform) in Hn.
    rewrite (all_zeros_value _ Hz) in Hn.
    assert (n = 0%float) as -> by congruence.
    exact E.
Qed.

Lemma match_runtime_zero_integer_witness :
  match_runtime (chars "run 5 ms x ms 00") = Raise ZeroDivisionError.
Proof.
  apply (@match_runtime_zero_integer _ (chars "5") (chars "00"));
    [|reflexivity].
  exists (chars "run"), (chars " "), (chars "5"), [], (chars " "),
    (chars "x "), (chars " "), [].
  repeat split; auto.
Defined.

(** ** Runs of the parser *)

Lemma header_raise_limit (line : str) (e : exn) :
  match_block_thread_size line = Raise e ->
  exists n, int_max_str_digits < n /\ e = ValueError_digit_limit n.
Proof.
  intros H.
  destruct (header_match_cases line)
    as [[_ E]|(db & dt & rest & _ & _ & _ & _ & _ & E)]; [congruence|].
  rewrite E in H; unfold header_result in H.
  destruct (within_limit db) eqn:Lb.
  - destruct (within_limit dt) eqn:Lt; [discriminate H|].
    exists (List.length dt); split; [now apply within_limit_false|].
    congruence.
  - exists (List.length db); split; [now apply within_limit_false|].
    congruence.
Qed.

Lemma runtime_raise_zero (line : str) (e : exn) :
  match_runtime line = Raise e -> e = ZeroDivisionError.
Proof.
  intros H.
  destruct (match_runtime_cases line)
    as [[_ E]|(X & N & x & n & _ & _ & _ & E)]; [congruence|].
  rewrite E in H.
  destruct (PrimFloat.eqb n 0); [congruence|discriminate H].
Qed.

Lemma line_error_kind (line : str) (e : exn) :
  line_error line = Some e ->
  e = ZeroDivisionError
  \/ exists n, int_max_str_digits < n /\ e = ValueError_digit_limit n.
Proof.
  unfold line_error.
  destruct (match_block_thread_size line) as [o|e1] eqn:Eh.
  - destruct (match_runtime line) as [r|e2] eqn:Er; [discriminate|].
    intros H; injection H as <-; left.
    now apply (runtime_raise_zero line).
  - intros H; injection H as <-; right.
    now apply (header_raise_limit line).
Qed.

Lemma first_error_kind (lines : list str) (e : exn) :
  first_error lines = Some e ->
  e = ZeroDivisionError
  \/ exists n, int_max_str_digits < n /\ e = ValueError_digit_limit n.
Proof.
  induction lines as [|l ls IH]; cbn [first_error]; [discriminate|].
  destruct (line_error l) as [e1|] eqn:El; [|exact IH].
  intros H; injection H as <-; now apply (line_error_kind l).
Qed.

Section ParserMore.

Variable G : Type.
Variable scipy_gmean : list float -> G.

Lemma parse_line_raises (st : parser_state G) (line : str) (e : exn) :
  line_error line = Some e ->
  parse_line scipy_gmean st line = Raise e.
Proof.
  unfold line_error, parse_line.
  destruct (match_block_thread_size line) as [o|e1]; cbn [bind].
  - destruct (match_runtime line) as [r|e2]; [discriminate|].
    now intros H; injection H as <-.
  - now intros H; injection H as <-.
Qed.

Lemma parse_line_returns (st : parser_state G) (line : str) :
  line_error line = None ->
  exists st', parse_line scipy_gmean st line = Ok st'.
Proof.
  unfold line_error, parse_line.
  destruct (match_block_thread_size line) as [o|e1]; [|discriminate].
  destruct (match_runtime line) as [r|e]; [|discriminate]; cbn [bind].
  intros _; destruct o as [nt|]; [eauto|].
  destruct r as [r|]; [destruct (truthy r)|]; eauto.
Qed.

Lemma parse_loop_outcome (lines : list str) :
  forall st,
    match first_error lines with
    | Some e => parse_loop scipy_gmean st lines = Raise e
    | None => exists st', parse_loop scipy_gmean st lines = Ok st'
    end.
Proof.
  induction lines as [|l ls IH]; intros st; cbn [first_error parse_loop].
  - eauto.
  - destruct (line_error l) as [e|] eqn:El.
    + now rewrite (parse_line_raises st l El).
    + destruct (parse_line_returns st l El) as (st1 & ->); cbn [bind].
      apply IH.
Qed.

Lemma parse_lines_result (lines : list str) :
  parse_lines scipy_gmean lines
  = match first_error lines with
    | Some e => Raise e
    | None => Ok (records scipy_gmean lines)
    end.
Proof.
  pose proof (parse_loop_outcome lines (initial_state G)) as H.
  pose proof (@parse_lines_records G scipy_gmean lines) as Hr.
  unfold parse_lines in *.
  destruct (first_error lines) as [e|].
  - now rewrite H.
  - destruct H as (st & E); rewrite E in *; cbn [bind] in *.
    now rewrite <- (Hr _ eq_refl).
Qed.

(** A group without header lines and without raising lines inside: every
    sample is appended, in order. *)
Lemma parse_loop_body (body : list str) :
  forall st,
    first_error body = None -> existsb is_header body = false ->
    parse_loop scipy_gmean st body
    = Ok (mk_state (current_block_thread_size st)
                   (current_runtimes st ++ samples body) (results st)).
Proof.
  induction body as [|l ls IH]; intros st Hr Hh;
    cbn [parse_loop samples flat_map].
  - rewrite app_nil_r; now destruct st.
  - cbn [existsb] in Hh; cbn [first_error] in Hr.
    apply orb_false_iff in Hh as [Hh1 Hh2].
    destruct (line_error l) as [e|] eqn:El; [discriminate Hr|].
    unfold parse_line, sample_of.
    unfold is_header in Hh1; unfold line_error in El.
    destruct (match_block_thread_size l) as [o|e]; [|discriminate El].
    destruct o as [nt|]; [discriminate Hh1|]; cbn [bind].
    destruct (match_runtime l) as [[r|]|e]; [| |discriminate El];
      cbn [bind].
    + destruct (truthy r); cbn [bind].
      * rewrite IH by assumption; cbn [current_block_thread_size
          current_runtimes results app].
        now rewrite <- app_assoc.
      * now rewrite IH by assumption.
    + now rewrite IH by assumption.
Qed.

Lemma save_with_results (pre : list (result G)) (st : parser_state G) :
  save scipy_gmean (with_results pre st) = pre ++ save scipy_gmean st.
Proof.
  unfold save, with_results; cbn.
  destruct (current_block_thread_size st) as [[b t]|]; auto.
  now rewrite app_assoc.
Qed.

Lemma parse_line_with_results (pre : list (result G))
      (st : parser_state G) (line : str) :
  parse_line scipy_gmean (with_results pre st) line
  = res_map (with_results pre) (parse_line scipy_gmean st line).
Proof.
  unfold parse_line.
  destruct (match_block_thread_size line) as [o|e]; cbn [bind res_map];
    [|reflexivity].
  destruct (match_runtime line) as [r|e]; cbn [bind res_map]; [|reflexivity].
  destruct o as [nt|].
  - rewrite save_with_results; reflexivity.
  - destruct r as [r|]; [destruct (truthy r)|]; reflexivity.
Qed.

Lemma parse_loop_with_results (pre : list (result G)) (lines : list str) :
  forall st,
    parse_loop scipy_gmean (with_results pre st) lines
    = res_map (with_results pre) (parse_loop scipy_gmean st lines).
Proof.
  induction lines as [|l ls IH]; intros st; cbn [parse_loop]; [reflexivity|].
  rewrite parse_line_with_results.
  destruct (parse_line scipy_gmean st l) as [st1|e]; cbn [bind res_map];
    auto.
Qed.

End ParserMore.

(** C1, as the code has it: the parser emits one record for every header
    line, in order, whether or not a runtime line was collected for it, and
    the aggregate of a record is taken over the samples of the lines between
    its header and the next one.  It returns these records on every log on
    which no matcher raises.  So a header whose lines add no sample still
    has its record, with the aggregate of the empty sample list; a log that
    is a single header line yields that one record. *)
Theorem record_for_every_header (G : Type) (scipy_gmean : list float -> G) :
  (forall lines,
      first_error lines = None ->
      parse_lines scipy_gmean lines = Ok (records scipy_gmean lines))
  /\ (forall lines rs,
         parse_lines scipy_gmean lines = Ok rs ->
         rs = records scipy_gmean lines /\ map (@key G) rs = headers lines)
  /\ (forall pre h nt post rs,
         match_block_thread_size h = Ok (Some nt) ->
         group_samples post = [] ->
         parse_lines scipy_gmean (pre ++ h :: post) = Ok rs ->
         In (mk_result (fst nt) (snd nt) (scipy_gmean [])) rs)
  /\ (forall db dt,
         all_digits db = true -> all_digits dt = true ->
         within_limit db = true -> within_limit dt = true ->
         parse_lines scipy_gmean
                     [header_prefix ++ db ++ header_middle ++ dt]
         = Ok [mk_result (digits_value 0 db) (digits_value 0 dt)
                         (scipy_gmean [])]).
Proof.
  split; [|split; [|split]].
  - intros lines H; now rewrite parse_lines_result, H.
  - intros lines rs H; split; [now apply parse_lines_records|].
    revert H; unfold parse_lines.
    destruct (parse_loop scipy_gmean (initial_state G) lines) as [st|e] eqn:E;
      simpl; [|discriminate].
    intros H; injection H as <-.
    now rewrite save_seen, (@parse_loop_seen G scipy_gmean lines _ _ E).
  - intros pre h nt post rs Hh Hs H.
    rewrite (parse_lines_records _ _ H); unfold records.
    pose proof (groups_app_header pre post h Hh) as Hin.
    rewrite Hs in Hin.
    apply (in_map (record_of scipy_gmean)) in Hin; exact Hin.
  - intros db dt Hb Ht Lb Lt; unfold parse_lines.
    cbn [parse_loop]; unfold parse_line.
    pose proof (header_match_value db dt [] Hb Ht I Lb Lt) as Hh.
    rewrite app_nil_r in Hh.
    rewrite Hh, exact_header_no_runtime by assumption.
    reflexivity.
Qed.

Lemma record_for_every_header_witness :
  parse_lines (fun rs : list float => rs)
              [lone_header; chars "# OPEN3D_PARFOR_BLOCK: 4, OPEN3D_PARFOR_THREAD: 8";
               chars "run 6.0 ms x ms 2"]
  = Ok [mk_result 1 2 []; mk_result 4 8 [3%float]]
  /\ ([mk_result 1 2 []] = records (fun rs : list float => rs) [lone_header]
      /\ map (@key (list float)) [mk_result 1 2 []] = headers [lone_header])
  /\ In (mk_result 1 2 [])
        [mk_result 4 8 [3%float]; mk_result 1 2 []; mk_result 4 8 []]
  /\ parse_lines (fun rs : list float => rs) [lone_header]
     = Ok [mk_result 1 2 []].
Proof.
  split; [|split; [|split]].
  - exact (proj1 (record_for_every_header (fun rs => rs))
                 [lone_header;
                  chars "# OPEN3D_PARFOR_BLOCK: 4, OPEN3D_PARFOR_THREAD: 8";
                  chars "run 6.0 ms x ms 2"] eq_refl).
  - exact (proj1 (proj2 (record_for_every_header (fun rs => rs)))
                 [lone_header] [mk_result 1 2 []] eq_refl).
  - exact (proj1 (proj2 (proj2 (record_for_every_header (fun rs => rs))))
                 [chars "# OPEN3D_PARFOR_BLOCK: 4, OPEN3D_PARFOR_THREAD: 8";
                  chars "run 6.0 ms x ms 2"]
                 lone_header (1, 2)%Z
                 [chars "note";
                  chars "# OPEN3D_PARFOR_BLOCK: 4, OPEN3D_PARFOR_THREAD: 8"]
                 _ eq_refl eq_refl eq_refl).
  - exact (proj2 (proj2 (proj2 (record_for_every_header (fun rs => rs))))
                 (chars "1") (chars "2") eq_refl eq_refl eq_refl eq_refl).
Defined.

(** X5: The parser stops at the first line on which a matcher raises, the
    header matcher being called before the runtime matcher, and raises what
    the matcher raised: [ZeroDivisionError], or the [ValueError] of a header
    number of more than 4300 digits.  When no line makes a matcher raise, it
    returns one record for every group of the log. *)
Theorem parse_lines_outcome
        (G : Type) (scipy_gmean : list float -> G) (lines : list str) :
  match first_error lines with
  | Some e =>
      parse_lines scipy_gmean lines = Raise e
      /\ (e = ZeroDivisionError
          \/ exists n, int_max_str_digits < n /\ e = ValueError_digit_limit n)
  | None => parse_lines scipy_gmean lines = Ok (records scipy_gmean lines)
  end.
Proof.
  rewrite parse_lines_result.
  destruct (first_error lines) as [e|] eqn:E; [|reflexivity].
  split; [reflexivity|now apply (first_error_kind lines)].
Qed.

(** X6: A header line followed by lines that are no headers, none of them
    making a matcher raise, gives one record: the pair of the header with
    the aggregate of the samples of the lines, in their order. *)
Theorem parse_lines_one_group
        (G : Type) (scipy_gmean : list float -> G)
        (h : str) (nt : Z * Z) (body : list str) :
  match_block_thread_size h = Ok (Some nt) ->
  first_error (h :: body) = None ->
  existsb is_header body = false ->
  parse_lines scipy_gmean (h :: body)
  = Ok [mk_result (fst nt) (snd nt) (scipy_gmean (samples body))].
Proof.
  intros Hh Hr Hb; cbn [first_error] in Hr.
  destruct (line_error h) as [e|] eqn:El; [discriminate Hr|].
  unfold parse_lines; cbn [parse_loop].
  rewrite (parse_line_header scipy_gmean _ _ Hh).
  unfold line_error in El; rewrite Hh in El.
  destruct (match_runtime h) as [r|e]; [|discriminate El]; cbn [bind].
  rewrite parse_loop_body by assumption; cbn [bind].
  destruct nt as [b t]; reflexivity.
Qed.

Lemma parse_lines_one_group_witness :
  parse_lines (fun rs : list float => rs)
              [lone_header; chars "run x 10.0 ms y 2.0 ms 1"; chars "note";
               zero_runtime_line; chars "run x 20.0 ms y 2.0 ms 1"]
  = Ok [mk_result 1 2 [10%float; 20%float]].
Proof.
  exact (@parse_lines_one_group _ (fun rs : list float => rs)
           lone_header (1, 2)%Z
           [chars "run x 10.0 ms y 2.0 ms 1"; chars "note";
            zero_runtime_line; chars "run x 20.0 ms y 2.0 ms 1"]
           eq_refl eq_refl eq_refl).
Defined.

(** X7: Logs compose: when the second part starts with a header line, the
    records of the whole are the records of the first part followed by the
    records of the second. *)
Theorem parse_lines_app
        (G : Type) (scipy_gmean : list float -> G)
        (l1 l2 : list str) (h : str) :
  is_header h = true ->
  parse_lines scipy_gmean (l1 ++ h :: l2)
  = (r1 <- parse_lines scipy_gmean l1 ;;
     r2 <- parse_lines scipy_gmean (h :: l2) ;;
     Ok (r1 ++ r2)).
Proof.
  intros Hh; unfold is_header in Hh.
  destruct (match_block_thread_size h) as [[nt|]|e] eqn:Eh;
    try discriminate Hh.
  unfold parse_lines; rewrite parse_loop_app.
  destruct (parse_loop scipy_gmean (initial_state G) l1) as [st1|e];
    cbn [bind]; [|reflexivity].
  cbn [parse_loop]; rewrite !(parse_line_header scipy_gmean _ _ Eh).
  destruct (match_runtime h) as [r|e]; cbn [bind]; [|reflexivity].
  change (save scipy_gmean (initial_state G)) with (@nil (result G)).
  replace (mk_state (Some nt) [] (save scipy_gmean st1))
    with (with_results (save scipy_gmean st1)
                       (mk_state (Some nt) [] (@nil (result G))))
    by (unfold with_results; cbn; now rewrite app_nil_r).
  rewrite parse_loop_with_results.
  destruct (parse_loop scipy_gmean (mk_state (Some nt) [] []) l2)
    as [st2|e]; cbn [bind res_map]; [|reflexivity].
  now rewrite save_with_results.
Qed.

Lemma parse_lines_app_witness :
  parse_lines (fun rs : list float => rs)
              ([lone_header; chars "run 8.0 ms x ms 2"]
                 ++ header_with_runtime :: [chars "run 3.0 ms x ms 1"])
  = Ok ([mk_result 1 2 [4%float]] ++ [mk_result 1 2 [3%float]]).
Proof.
  exact (@parse_lines_app _ (fun rs : list float => rs)
           [lone_header; chars "run 8.0 ms x ms 2"]
           [chars "run 3.0 ms x ms 1"] header_with_runtime eq_refl).
Defined.

(** ** Lines that the parser passes over *)

Lemma runtime_form_two_ms (line X N : str) :
  runtime_form line X N -> 2 <= count_ms line.
Proof.
  intros (P & S1 & d & fr & S2 & Q & S3 & tail & _ & _ & _ & _
          & _ & _ & _ & _ & _ & _ & ->).
  replace (P ++ S1 ++ X ++ chars " ms" ++ S2 ++ Q ++ chars "ms"
             ++ S3 ++ N ++ tail)
    with ((P ++ S1 ++ X ++ [Latin " "])
            ++ Latin "m" :: Latin "s" :: (S2 ++ Q)
            ++ Latin "m" :: Latin "s" :: (S3 ++ N ++ tail))
    by (repeat (rewrite <- app_assoc; simpl); reflexivity).
  apply count_ms_two.
Qed.

Lemma few_ms_no_runtime (line : str) :
  count_ms line < 2 -> match_runtime line = Ok None.
Proof.
  intros H.
  destruct (match_runtime_cases line)
    as [[_ E]|(X & N & _ & _ & Hform & _)]; [exact E|].
  apply runtime_form_two_ms in Hform; lia.
Qed.

Lemma no_hash_no_header (line : str) :
  no_head (fun a => Ascii.eqb a "#") line ->
  match_block_thread_size line = Ok None.
Proof.
  intros H; unfold match_block_thread_size.
  destruct (re_match header_pattern line) as [m|] eqn:E; [|reflexivity].
  apply header_match_sound in E as (db & dt & rest & _ & _ & -> & _).
  discriminate H.
Qed.

(** X8: A line that does not start with [#] and holds "ms" less than twice (an
    empty line, a comment, a line of other output) changes nothing: the log
    gives the same result with and without it. *)
Theorem unrelated_line_ignored
        (G : Type) (scipy_gmean : list float -> G)
        (pre post : list str) (line : str) :
  no_head (fun a => Ascii.eqb a "#") line -> count_ms line < 2 ->
  parse_lines scipy_gmean (pre ++ line :: post)
  = parse_lines scipy_gmean (pre ++ post).
Proof.
  intros Hh Hm; unfold parse_lines.
  rewrite !parse_loop_app.
  destruct (parse_loop scipy_gmean (initial_state G) pre) as [st|e];
    cbn [bind parse_loop]; [|reflexivity].
  rewrite parse_line_other; auto using no_hash_no_header, few_ms_no_runtime.
Qed.

Lemma unrelated_line_ignored_witness :
  parse_lines (fun rs : list float => rs)
              ([lone_header] ++ chars "warming up 3 ms" ::
                 [chars "run 8.0 ms x ms 2"])
  = parse_lines (fun rs : list float => rs)
                ([lone_header] ++ [chars "run 8.0 ms x ms 2"]).
Proof.
  apply unrelated_line_ignored; [reflexivity|].
  apply Nat.ltb_lt; reflexivity.
Defined.

(** ** Stripping *)

Lemma lstrip_spaces (a s : str) :
  forallb is_space a = true -> lstrip (a ++ s) = lstrip s.
Proof.
  induction a as [|x a IH]; [reflexivity|]; simpl.
  intros H; apply andb_true_iff in H as [Hx Ha].
  now rewrite Hx, IH.
Qed.

Lemma lstrip_split (s : str) :
  exists a, forallb is_space a = true /\ s = a ++ lstrip s.
Proof.
  induction s as [|x s (a & Ha & IH)]; [exists []; auto|].
  simpl; destruct (is_space x) eqn:Ex.
  - exists (x :: a); simpl; rewrite Ex, Ha; split; auto; congruence.
  - exists []; auto.
Qed.

Lemma lstrip_app (s b : str) :
  lstrip s <> [] -> lstrip (s ++ b) = lstrip s ++ b.
Proof.
  induction s as [|x s IH]; [intros H; now elim H|]; simpl.
  destruct (is_space x); auto.
Qed.

Lemma lstrip_all_spaces (s : str) :
  forallb is_space s = true -> lstrip s = [].
Proof.
  intros H; rewrite <- (app_nil_r s); now rewrite lstrip_spaces.
Qed.

Lemma lstrip_nil_spaces (s : str) :
  lstrip s = [] -> forallb is_space s = true.
Proof.
  induction s as [|x s IH]; [reflexivity|]; simpl.
  destruct (is_space x); [exact IH|discriminate].
Qed.

Lemma forallb_rev (f : chr -> bool) (s : str) :
  forallb f (rev s) = forallb f s.
Proof.
  induction s as [|x s IH]; [reflexivity|]; simpl.
  rewrite forallb_app, IH; simpl; rewrite andb_true_r; apply andb_comm.
Qed.

Lemma strip_pad (a s b : str) :
  forallb is_space a = true -> forallb is_space b = true ->
  strip (a ++ s ++ b) = strip s.
Proof.
  intros Ha Hb; unfold strip.
  rewrite lstrip_spaces by assumption.
  destruct (lstrip s) as [|x t] eqn:E.
  - apply lstrip_nil_spaces in E.
    rewrite (lstrip_all_spaces (s ++ b))
      by (rewrite forallb_app; now rewrite E, Hb).
    reflexivity.
  - rewrite lstrip_app by congruence.
    rewrite E, rev_app_distr, lstrip_spaces; [reflexivity|].
    now rewrite forallb_rev.
Qed.

Lemma strip_split (s : str) :
  exists a b,
    forallb is_space a = true /\ forallb is_space b = true /\
    s = a ++ strip s ++ b.
Proof.
  destruct (lstrip_split s) as (a & Ha & Es).
  destruct (lstrip_split (rev (lstrip s))) as (b & Hb & Eb).
  exists a, (rev b); repeat split; auto.
  - now rewrite forallb_rev.
  - unfold strip; rewrite <- rev_app_distr, <- Eb, rev_involutive.
    exact Es.
Qed.

Lemma map_strip_strip (raw : list str) :
  map strip (map strip raw) = map strip raw.
Proof.
  rewrite map_map; apply map_ext; intros s.
  destruct (strip_split s) as (a & b & Ha & Hb & E).
  rewrite E at 2; now rewrite strip_pad.
Qed.

(** X10: [parse_file] does not see the white space around the lines: the same
    log with its lines stripped, or with white space added around each
    line, gives the same result. *)
Theorem parse_file_ignores_padding
        (G : Type) (scipy_gmean : list float -> G) (raw : list str) :
  parse_file scipy_gmean (map strip raw) = parse_file scipy_gmean raw
  /\ (forall a b,
         forallb is_space a = true -> forallb is_space b = true ->
         parse_file scipy_gmean (map (fun l => a ++ l ++ b) raw)
         = parse_file scipy_gmean raw).
Proof.
  unfold parse_file; split.
  - now rewrite map_strip_strip.
  - intros a b Ha Hb; rewrite map_map.
    f_equal; apply map_ext; intros l; now apply strip_pad.
Qed.

Lemma parse_file_ignores_padding_witness :
  parse_file (fun rs : list float => rs)
             (map (fun l => chars "  " ++ l ++ [newline])
                  [lone_header; chars "run 8.0 ms x ms 2"])
  = parse_file (fun rs : list float => rs)
               [lone_header; chars "run 8.0 ms x ms 2"].
Proof.
  exact (proj2 (parse_file_ignores_padding (fun rs : list float => rs)
                  [lone_header; chars "run 8.0 ms x ms 2"])
               (chars "  ") [newline] eq_refl eq_refl).
Defined.

(** ** The header matcher takes the whole runs of digits *)

Lemma digits_value_nonneg (s : str) :
  forall acc, (0 <= acc)%Z -> (0 <= digits_value acc s)%Z.
Proof.
  induction s as [|a s IH]; intros acc H; cbn [digits_value]; [exact H|].
  apply IH.
  assert (0 <= digit_value a)%Z by (destruct a as [x|c [n|] sp]; cbn; lia).
  lia.
Qed.

(** X11: A pair that the header matcher returns is spelled by the two runs of
    digits of the line, each taken whole, and neither number is negative. *)
Theorem match_block_thread_size_value (line : str) (b t : Z) :
  match_block_thread_size line = Ok (Some (b, t)) ->
  exists db dt rest,
    line = header_prefix ++ db ++ header_middle ++ dt ++ rest /\
    all_digits db = true /\ all_digits dt = true /\
    no_head is_digit rest /\
    b = digits_value 0 db /\ t = digits_value 0 dt /\
    (0 <= b)%Z /\ (0 <= t)%Z.
Proof.
  intros H.
  destruct (header_match_cases line)
    as [[_ E]|(db & dt & rest & El & Hb & Ht & Hr & _ & E)]; [congruence|].
  rewrite E in H; unfold header_result in H.
  destruct (within_limit db); [|discriminate H].
  destruct (within_limit dt); [|discriminate H].
  exists db, dt, rest.
  assert (b = digits_value 0 db /\ t = digits_value 0 dt) as [-> ->]
    by (split; congruence).
  repeat split; auto; apply digits_value_nonneg; lia.
Qed.

Lemma match_block_thread_size_value_witness :
  exists db dt rest,
    chars "# OPEN3D_PARFOR_BLOCK: 16, OPEN3D_PARFOR_THREAD: 256 threads"
    = header_prefix ++ db ++ header_middle ++ dt ++ rest /\
    all_digits db = true /\ all_digits dt = true /\
    no_head is_digit rest /\
    16%Z = digits_value 0 db /\ 256%Z = digits_value 0 dt /\
    (0 <= 16)%Z /\ (0 <= 256)%Z.
Proof.
  exact (@match_block_thread_size_value
           (chars "# OPEN3D_PARFOR_BLOCK: 16, OPEN3D_PARFOR_THREAD: 256 threads")
           16 256 eq_refl).
Defined.

(** ** What the CPU-prefix helper returns *)

Lemma cpu_match_prefix (f : str) (m : caps) :
  re_match cpu_pattern f = Some m ->
  exists p rest,
    m = [(1, p ++ cpu_marker)] /\ f = p ++ cpu_marker ++ rest /\
    no_newline p = true.
Proof.
  unfold re_match; intros H.
  apply run_sound in H as (u & v & c' & -> & Hd & Hk).
  injection Hk as <-.
  simpl in Hd.
  destruct Hd as (g & r1 & c1 & -> &
                  (c0 & (p & l & c2 & -> & (Hp & ->) & (-> & ->)) & ->) &
                  (q & r2 & c3 & -> & (Hq & ->) & (-> & _ & ->))).
  exists p, (q ++ [] ++ v); repeat split; auto.
  unfold cpu_marker; repeat (rewrite <- app_assoc; simpl); reflexivity.
Qed.

(** X12: Whatever the file name, a result of [extract_cpu_prefix] is a prefix
    of the name that ends with [_CPU] and holds no newline, and the helper
    maps that prefix to itself. *)
Theorem extract_cpu_prefix_result (f : str) (o : option str) :
  extract_cpu_prefix f = Ok o ->
  exists p rest,
    o = Some (p ++ cpu_marker) /\ f = p ++ cpu_marker ++ rest /\
    no_newline (p ++ cpu_marker) = true /\
    extract_cpu_prefix (p ++ cpu_marker) = Ok (Some (p ++ cpu_marker)).
Proof.
  unfold extract_cpu_prefix at 1.
  destruct (re_match cpu_pattern f) as [m|] eqn:E; [|discriminate].
  apply cpu_match_prefix in E as (p & rest & -> & -> & Hp).
  intros H; injection H as <-.
  exists p, rest; repeat split; auto.
  - unfold no_newline in *; rewrite forallb_app, Hp; reflexivity.
  - unfold extract_cpu_prefix.
    pose proof (cpu_match_last p [] Hp eq_refl eq_refl) as Hm.
    rewrite app_nil_r in Hm; now rewrite Hm.
Qed.

Lemma extract_cpu_prefix_result_witness :
  exists p rest,
    Some (chars "benchmark_Intel_CPU") = Some (p ++ cpu_marker) /\
    chars "benchmark_Intel_CPU_with_dummy.log" = p ++ cpu_marker ++ rest /\
    no_newline (p ++ cpu_marker) = true /\
    extract_cpu_prefix (p ++ cpu_marker) = Ok (Some (p ++ cpu_marker)).
Proof.
  exact (@extract_cpu_prefix_result
           (chars "benchmark_Intel_CPU_with_dummy.log")
           (Some (chars "benchmark_Intel_CPU")) eq_refl).
Defined.

(** ** The grid after the loop *)

Lemma find_app_last (A : Type) (f : A -> bool) (l : list A) (a : A) :
  find f (l ++ [a])
  = match find f l with
    | Some b => Some b
    | None => if f a then Some a else None
    end.
Proof.
  induction l as [|b l IH]; simpl; [reflexivity|].
  destruct (f b); auto.
Qed.

Lemma fill_step_position (g : grid) (out : list (Z * Z * nat * nat))
      (r : result float) :
  grid_shape g -> candidate_sizes r ->
  exists y x g',
    position r = Some (y, x) /\
    (y < 9)%nat /\ (x < 9)%nat /\
    fill_step (g, out) r = Ok (g', out ++ printed_line r) /\
    grid_shape g' /\
    forall y' x',
      cell g' y' x'
      = if lands_at y' x' r then Some (round_2f (gmean r))
        else cell g y' x'.
Proof.
  intros Hg Hr.
  destruct (fill_step_candidate out Hg Hr)
    as (y & x & g' & Ny & Nx & Ey & Ex & E & Hg' & Hc & Ho).
  unfold py_index in Ey, Ex.
  destruct (find_index (block_size r) block_sizes) as [y0|] eqn:Fy;
    [|discriminate Ey].
  destruct (find_index (thread_size r) thread_sizes) as [x0|] eqn:Fx;
    [|discriminate Ex].
  injection Ey as ->; injection Ex as ->.
  assert (Hy : (y < 9)%nat)
    by (apply (nth_error_Some block_sizes y); congruence).
  assert (Hx : (x < 9)%nat)
    by (apply (nth_error_Some thread_sizes x); congruence).
  exists y, x, g'; unfold printed_line, lands_at, position.
  rewrite Fy, Fx.
  split; [reflexivity|]; split; [exact Hy|]; split; [exact Hx|].
  split; [exact E|]; split; [exact Hg'|].
  intros y' x'.
  destruct (Nat.eqb_spec y y') as [<-|Hny]; simpl.
  - destruct (Nat.eqb_spec x x') as [<-|Hnx]; [exact Hc|].
    apply Ho; congruence.
  - apply Ho; congruence.
Qed.

Lemma fill_loop_cells (rs : list (result float)) :
  forall g0 out,
    grid_shape g0 -> Forall candidate_sizes rs ->
    exists g,
      fill_loop (g0, out) rs = Ok (g, out ++ flat_map printed_line rs) /\
      grid_shape g /\
      forall y x,
        cell g y x
        = match find (lands_at y x) (rev rs) with
          | Some r => Some (round_2f (gmean r))
          | None => cell g0 y x
          end.
Proof.
  induction rs as [|r rs IH]; intros g0 out Hg Hall; cbn [fill_loop].
  - exists g0; rewrite app_nil_r; auto.
  - inversion Hall as [|? ? Hr Hrs]; subst.
    destruct (fill_step_position out Hg Hr)
      as (y0 & x0 & g1 & _ & _ & _ & -> & Hg1 & Hc1).
    cbn [bind].
    destruct (IH g1 (out ++ printed_line r) Hg1 Hrs) as (g & -> & Hgs & Hc).
    exists g; split; [|split; [exact Hgs|]].
    + cbn [flat_map]; now rewrite app_assoc.
    + intros y x; rewrite Hc; cbn [rev]; rewrite find_app_last.
      destruct (find (lands_at y x) (rev rs)); [reflexivity|].
      rewrite Hc1; now destruct (lands_at y x r).
Qed.

Lemma fill_grid_cells_aux (rs : list (result float)) :
  Forall candidate_sizes rs ->
  exists g,
    fill_grid rs = Ok (g, flat_map printed_line rs) /\ grid_shape g.
Proof.
  intros Hall; unfold fill_grid.
  destruct (@fill_loop_cells rs initial_grid [] initial_grid_shape Hall)
    as (g & E & Hg & _).
  exists g; split; assumption.
Qed.

(** X13: When every record has candidate sizes the loop ends with a 9 x 9 grid,
    it has printed one line per record, in order, and each cell holds the
    rounded mean of the last record of its row and column, or -1 when there
    is none: a later record with the same pair of sizes overwrites an
    earlier one. *)
Theorem fill_grid_cells (rs : list (result float)) :
  Forall candidate_sizes rs ->
  exists g,
    fill_grid rs = Ok (g, flat_map printed_line rs) /\
    grid_shape g /\
    forall y x,
      (y < 9)%nat -> (x < 9)%nat ->
      cell g y x
      = Some match find (lands_at y x) (rev rs) with
             | Some r => round_2f (gmean r)
             | None => (-1)%float
             end.
Proof.
  intros Hall; unfold fill_grid.
  destruct (fill_loop_cells [] initial_grid_shape Hall) as (g & E & Hg & Hc).
  exists g; repeat split; auto; try apply Hg.
  intros y x Hy Hx; rewrite Hc.
  destruct (find (lands_at y x) (rev rs)); [reflexivity|].
  now apply initial_grid_cell.
Qed.

Lemma fill_grid_cells_witness :
  exists g,
    fill_grid [mk_result 2 4 1.5%float; mk_result 8 1 3%float;
               mk_result 2 4 0.125%float]
    = Ok (g, [(2%Z, 4%Z, 1%nat, 2%nat); (8%Z, 1%Z, 3%nat, 0%nat);
              (2%Z, 4%Z, 1%nat, 2%nat)]) /\
    grid_shape g /\
    forall y x,
      (y < 9)%nat -> (x < 9)%nat ->
      cell g y x
      = Some match find (lands_at y x)
                        (rev [mk_result 2 4 1.5%float; mk_result 8 1 3%float;
                              mk_result 2 4 0.125%float]) with
             | Some r => round_2f (gmean r)
             | None => (-1)%float
             end.
Proof.
  apply (@fill_grid_cells
           [mk_result 2 4 1.5%float; mk_result 8 1 3%float;
            mk_result 2 4 0.125%float]).
  repeat (apply Forall_cons || apply Forall_nil); split; cbn; auto 12.
Defined.

(** X14: The loop stops at the first record that has a size off the grid, and
    the error names that size: the block size when it is not a candidate,
    the thread size otherwise. *)
Theorem fill_grid_first_unknown
        (pre post : list (result float)) (r : result float) :
  Forall candidate_sizes pre -> ~ candidate_sizes r ->
  fill_grid (pre ++ r :: post)
  = Raise (ValueError_not_in_list (missing_size r)).
Proof.
  intros Hpre Hr; unfold fill_grid; rewrite fill_loop_app.
  destruct (@fill_loop_candidates pre initial_grid [] initial_grid_shape Hpre)
    as (g & out & -> & Hg).
  cbn [bind fill_loop]; unfold missing_size.
  destruct (in_dec Z.eq_dec (block_size r) block_sizes) as [Hb|Hb].
  - assert (Ht : ~ In (thread_size r) thread_sizes)
      by (intros Ht; apply Hr; now split).
    rewrite fill_step_thread_missing by assumption.
    apply find_index_in in Hb as (y & -> & _); reflexivity.
  - rewrite fill_step_block_missing by assumption.
    now rewrite (find_index_not_in _ _ Hb).
Qed.

Lemma fill_grid_first_unknown_witness :
  fill_grid ([mk_result 2 4 1.5%float] ++ mk_result 4 3 2%float
               :: [mk_result 5 1 1%float])
  = Raise (ValueError_not_in_list 3).
Proof.
  apply (@fill_grid_first_unknown
           [mk_result 2 4 1.5%float] [mk_result 5 1 1%float]
           (mk_result 4 3 2%float)).
  - repeat constructor; simpl; lia.
  - intros [_ H]; simpl in H; lia.
Defined.

(** ** The order of the records *)

Lemma find_index_nth (v : Z) (l : list Z) (i : nat) :
  find_index v l = Some i -> nth_error l i = Some v.
Proof.
  revert i; induction l as [|a l IH]; intros i; simpl; [discriminate|].
  destruct (Z.eqb_spec a v) as [->|Hne].
  - intros H; injection H as <-; reflexivity.
  - destruct (find_index v l) as [j|]; [|discriminate].
    intros H; injection H as <-; simpl; auto.
Qed.

Lemma lands_at_key (y x : nat) (r r' : result float) :
  lands_at y x r = true -> lands_at y x r' = true -> key r = key r'.
Proof.
  unfold lands_at, position, key; intros H H'.
  destruct (find_index (block_size r) block_sizes) as [y1|] eqn:E1;
    [|discriminate H].
  destruct (find_index (thread_size r) thread_sizes) as [x1|] eqn:E2;
    [|discriminate H].
  destruct (find_index (block_size r') block_sizes) as [y2|] eqn:E3;
    [|discriminate H'].
  destruct (find_index (thread_size r') thread_sizes) as [x2|] eqn:E4;
    [|discriminate H'].
  apply andb_true_iff in H as [Hy Hx], H' as [Hy' Hx'].
  apply Nat.eqb_eq in Hy, Hx, Hy', Hx'; subst.
  apply find_index_nth in E1, E2, E3, E4.
  f_equal; congruence.
Qed.

Lemma map_injective_on (A B : Type) (f : A -> B) (l : list A) :
  NoDup (map f l) ->
  forall a b, In a l -> In b l -> f a = f b -> a = b.
Proof.
  induction l as [|c l IH]; intros Hnd a b Ha Hb E; [destruct Ha|].
  simpl in Hnd; inversion Hnd as [|? ? Hnin Hnd']; subst.
  destruct Ha as [->|Ha], Hb as [->|Hb]; auto.
  - exfalso; apply Hnin; rewrite E; now apply in_map.
  - exfalso; apply Hnin; rewrite <- E; now apply in_map.
Qed.

Lemma find_unique (A : Type) (f : A -> bool) (l : list A) (a : A) :
  (forall b c, In b l -> In c l -> f b = true -> f c = true -> b = c) ->
  In a l -> f a = true -> find f l = Some a.
Proof.
  intros Hu Ha Hf.
  destruct (find f l) as [b|] eqn:E.
  - apply find_some in E as [Hb Hfb]; f_equal; auto.
  - pose proof (find_none _ _ E _ Ha); congruence.
Qed.

Lemma find_permutation (A : Type) (f : A -> bool) (l l' : list A) :
  (forall b c, In b l -> In c l -> f b = true -> f c = true -> b = c) ->
  (forall a, In a l <-> In a l') ->
  find f l = find f l'.
Proof.
  intros Hu Hin.
  destruct (find f l) as [a|] eqn:E.
  - apply find_some in E as [Ha Hf]; symmetry.
    apply find_unique; auto.
    + intros b c Hb Hc; apply Hu; now apply Hin.
    + now apply Hin.
  - destruct (find f l') as [b|] eqn:E'; [|reflexivity].
    apply find_some in E' as [Hb Hf].
    apply Hin in Hb; pose proof (find_none _ _ E _ Hb); congruence.
Qed.

Lemma list_ext (A : Type) (l l' : list A) :
  (forall i, nth_error l i = nth_error l' i) -> l = l'.
Proof.
  revert l'; induction l as [|a l IH]; intros [|b l'] H.
  - reflexivity.
  - discriminate (H 0%nat).
  - discriminate (H 0%nat).
  - pose proof (H 0%nat) as H0; injection H0 as ->.
    f_equal; apply IH; intros i; exact (H (S i)).
Qed.

Lemma grid_ext (g g' : grid) :
  grid_shape g -> grid_shape g' ->
  (forall y x, (y < 9)%nat -> (x < 9)%nat -> cell g y x = cell g' y x) ->
  g = g'.
Proof.
  intros [Hl Hr] [Hl' Hr'] Hc.
  rewrite Forall_forall in Hr, Hr'.
  apply list_ext; intros y.
  destruct (Nat.lt_ge_cases y 9) as [Hy|Hy].
  - destruct (nth_error g y) as [row|] eqn:E;
      [|apply nth_error_None in E; simpl in Hl; lia].
    destruct (nth_error g' y) as [row'|] eqn:E';
      [|apply nth_error_None in E'; simpl in Hl'; lia].
    f_equal; apply list_ext; intros x.
    destruct (Nat.lt_ge_cases x 9) as [Hx|Hx].
    + specialize (Hc y x Hy Hx); unfold cell in Hc.
      now rewrite E, E' in Hc.
    + pose proof (Hr _ (nth_error_In _ _ E)) as L.
      pose proof (Hr' _ (nth_error_In _ _ E')) as L'.
      simpl in L, L'.
      assert (N1 : nth_error row x = None) by (apply nth_error_None; lia).
      assert (N2 : nth_error row' x = None) by (apply nth_error_None; lia).
      congruence.
  - assert (N1 : nth_error g y = None)
      by (apply nth_error_None; simpl in Hl; lia).
    assert (N2 : nth_error g' y = None)
      by (apply nth_error_None; simpl in Hl'; lia).
    congruence.
Qed.

(** X15: When the records have candidate sizes and no two of them the same pair
    of sizes, the grid does not depend on their order. *)
Theorem fill_grid_order (rs rs' : list (result float)) :
  Permutation rs rs' -> NoDup (map (@key float) rs) ->
  Forall candidate_sizes rs ->
  exists g,
    fill_grid rs = Ok (g, flat_map printed_line rs) /\
    fill_grid rs' = Ok (g, flat_map printed_line rs').
Proof.
  intros Hp Hnd Hall.
  assert (Hall' : Forall candidate_sizes rs').
  { rewrite Forall_forall in *; intros r Hr.
    apply Hall; eapply Permutation_in; [symmetry; exact Hp|exact Hr]. }
  destruct (@fill_loop_cells rs initial_grid [] initial_grid_shape Hall)
    as (g & E & Hg & Hc).
  destruct (@fill_loop_cells rs' initial_grid [] initial_grid_shape Hall')
    as (g' & E' & Hg' & Hc').
  assert (g' = g) as ->.
  { apply grid_ext; auto; intros y x _ _.
    rewrite Hc, Hc'.
    rewrite (@find_permutation _ (lands_at y x) (rev rs') (rev rs));
      [reflexivity| |].
    - intros b c Hb Hc0 Fb Fc.
      apply in_rev in Hb, Hc0.
      apply (map_injective_on (@key float) rs' ); auto.
      + eapply Permutation_NoDup; [|exact Hnd].
        now apply Permutation_map.
      + eapply lands_at_key; eauto.
    - intros a; rewrite <- !in_rev; split; apply Permutation_in;
        [symmetry; exact Hp|exact Hp]. }
  exists g; split; assumption.
Qed.

Lemma fill_grid_order_witness :
  exists g,
    fill_grid [mk_result 2 4 1.5%float; mk_result 8 1 3%float]
    = Ok (g, flat_map printed_line
                      [mk_result 2 4 1.5%float; mk_result 8 1 3%float]) /\
    fill_grid [mk_result 8 1 3%float; mk_result 2 4 1.5%float]
    = Ok (g, flat_map printed_line
                      [mk_result 8 1 3%float; mk_result 2 4 1.5%float]).
Proof.
  apply fill_grid_order.
  - apply perm_swap.
  - apply NoDup_cons; [simpl; intros [H|[]]; discriminate H|].
    apply NoDup_cons; [intros []|apply NoDup_nil].
  - repeat constructor; simpl; lia.
Defined.

(** ** From the log to the grid *)

Lemma parse_lines_keys (G : Type) (scipy_gmean : list float -> G)
      (lines : list str) (rs : list (result G)) :
  parse_lines scipy_gmean lines = Ok rs -> map (@key G) rs = headers lines.
Proof.
  unfold parse_lines.
  destruct (parse_loop scipy_gmean (initial_state G) lines) as [st|e] eqn:E;
    cbn [bind]; [|discriminate].
  intros H; injection H as <-.
  now rewrite save_seen, (@parse_loop_seen G scipy_gmean lines _ _ E).
Qed.

Lemma existsb_eqb_in (v : Z) (l : list Z) :
  existsb (Z.eqb v) l = true <-> In v l.
Proof.
  rewrite existsb_exists; split.
  - intros (x & Hx & E); apply Z.eqb_eq in E; now subst.
  - intros H; exists v; split; [exact H|apply Z.eqb_refl].
Qed.

Lemma candidate_pair_iff (r : result float) :
  candidate_pair (key r) = true <-> candidate_sizes r.
Proof.
  unfold candidate_pair, candidate_sizes, key; cbn [fst snd].
  now rewrite andb_true_iff, !existsb_eqb_in.
Qed.

Lemma candidate_pairs_iff (rs : list (result float)) :
  forallb candidate_pair (map (@key float) rs) = true
  <-> Forall candidate_sizes rs.
Proof.
  rewrite forallb_forall, Forall_forall; split.
  - intros H r Hr; apply candidate_pair_iff, H; now apply in_map.
  - intros H nt Hnt; apply in_map_iff in Hnt as (r & <- & Hr).
    now apply candidate_pair_iff, H.
Qed.

Lemma printed_pairs (rs : list (result float)) :
  Forall candidate_sizes rs ->
  map (fun p => fst (fst p)) (flat_map printed_line rs)
  = map (@key float) rs.
Proof.
  induction 1 as [|r rs [Hb Ht] _ IH]; [reflexivity|].
  cbn [flat_map map]; rewrite map_app, IH; f_equal.
  unfold printed_line, position.
  apply find_index_in in Hb as (y & -> & _), Ht as (x & -> & _).
  reflexivity.
Qed.

(** X16: The outcomes of the script up to the drawing.  The first line on
    which a matcher raises aborts it with what the matcher raised:
    [ZeroDivisionError] from the runtime matcher, or the [ValueError] of a
    header number of more than 4300 digits.  Otherwise a header whose sizes
    are not all candidates aborts it with the [ValueError] of [list.index]
    on a size that is no candidate.  Otherwise it ends with a 9 x 9 grid,
    and what it has printed lists the headers of the log in order. *)
Theorem build_grid_outcome
        (scipy_gmean : list float -> float) (raw : list str) :
  match first_error (map strip raw) with
  | Some e =>
      build_grid scipy_gmean raw = Raise e
      /\ (e = ZeroDivisionError
          \/ exists n, int_max_str_digits < n /\ e = ValueError_digit_limit n)
  | None =>
      if forallb candidate_pair (headers (map strip raw))
      then exists g out,
             build_grid scipy_gmean raw = Ok (g, out) /\
             grid_shape g /\
             map (fun p => fst (fst p)) out = headers (map strip raw)
      else exists v,
             ~ In v block_sizes /\
             build_grid scipy_gmean raw = Raise (ValueError_not_in_list v)
  end.
Proof.
  unfold build_grid, parse_file, parse_lines.
  pose proof (parse_loop_outcome scipy_gmean (map strip raw)
                (initial_state float)) as H.
  destruct (first_error (map strip raw)) as [e|] eqn:Ee.
  { rewrite H; split; [reflexivity|].
    now apply (first_error_kind (map strip raw)). }
  destruct H as (st & E).
  assert (Hk : map (@key float) (save scipy_gmean st)
               = headers (map strip raw)).
  { apply (@parse_lines_keys _ scipy_gmean).
    unfold parse_lines; now rewrite E. }
  rewrite E; cbn [bind]; rewrite <- Hk.
  destruct (forallb candidate_pair (map (@key float) (save scipy_gmean st)))
    eqn:Ec.
  - apply candidate_pairs_iff in Ec.
    destruct (fill_grid_cells_aux Ec) as (g & Eg & Hg).
    exists g, (flat_map printed_line (save scipy_gmean st)).
    repeat split; auto; try apply Hg.
    now apply printed_pairs.
  - assert (Hex : Exists (fun r => ~ candidate_sizes r)
                         (save scipy_gmean st)).
    { apply Exists_exists.
      destruct (forallb_forall candidate_pair
                  (map (@key float) (save scipy_gmean st))) as [_ Hf].
      apply not_true_iff_false in Ec.
      destruct (Forall_Exists_dec candidate_sizes candidate_sizes_dec
                  (save scipy_gmean st)) as [Hall|Hexi].
      - exfalso; apply Ec; now apply candidate_pairs_iff.
      - apply Exists_exists in Hexi; exact Hexi. }
    destruct (@fill_loop_aborts (save scipy_gmean st) initial_grid []
                initial_grid_shape Hex) as (r & v & _ & _ & Hv & Er).
    exists v; split; [exact Hv|exact Er].
Qed.

(** ** The reading that the runtime matcher takes *)

Section LongestRun.

Variable R : Type.
Implicit Types (k : str -> option R) (x : R).

Lemma star_none_sound p s k :
  star p s k = None ->
  forall u v, s = u ++ v -> forallb (cls_ok p) u = true -> k v = None.
Proof.
  induction s as [|a s IH]; cbn [star].
  - intros H u v E _.
    symmetry in E; apply app_eq_nil in E as [-> ->]; exact H.
  - intros H u v E Hu.
    destruct u as [|b u]; cbn [app] in E.
    + subst v.
      destruct (cls_ok p a); [destruct (star p s k)|]; congruence.
    + injection E as <- ->.
      cbn [forallb] in Hu; apply andb_true_iff in Hu as [Hb Hu].
      rewrite Hb in H.
      destruct (star p (u ++ v) k) eqn:Es; [discriminate H|].
      now apply (IH eq_refl u v).
Qed.

(** The repetition stops at the longest run after which the continuation
    accepts. *)
Lemma star_max_sound p s k x :
  star p s k = Some x ->
  exists u v,
    s = u ++ v /\ forallb (cls_ok p) u = true /\ k v = Some x /\
    forall u' v',
      s = u' ++ v' -> forallb (cls_ok p) u' = true ->
      List.length u < List.length u' -> k v' = None.
Proof.
  revert x; induction s as [|a s IH]; intros x; cbn [star].
  - intros H; exists [], []; repeat split; auto.
    intros u' v' E _ Hl.
    symmetry in E; apply app_eq_nil in E as [-> _]; cbn in Hl; lia.
  - destruct (cls_ok p a) eqn:Ea.
    + destruct (star p s k) as [y|] eqn:Es.
      * intros H; injection H as ->.
        destruct (IH _ eq_refl) as (u & v & -> & Hu & Hk & Hmax).
        exists (a :: u), v; cbn [forallb app]; rewrite Ea, Hu.
        repeat split; auto.
        intros u' v' E Hu' Hl.
        destruct u' as [|b u']; [cbn in Hl; lia|].
        cbn [app] in E; injection E as <- E.
        cbn [forallb] in Hu'; apply andb_true_iff in Hu' as [_ Hu'].
        apply (Hmax u' v' E Hu'); cbn in Hl; lia.
      * intros H; exists [], (a :: s); repeat split; auto.
        intros u' v' E Hu' Hl.
        destruct u' as [|b u']; [cbn in Hl; lia|].
        cbn [app] in E; injection E as <- E.
        cbn [forallb] in Hu'; apply andb_true_iff in Hu' as [_ Hu'].
        eapply star_none_sound; eauto.
    + intros H; exists [], (a :: s); repeat split; auto.
      intros u' v' E Hu' Hl.
      destruct u' as [|b u']; [cbn in Hl; lia|].
      cbn [app] in E; injection E as <- E.
      cbn [forallb] in Hu'; apply andb_true_iff in Hu' as [Hb _].
      congruence.
Qed.

End LongestRun.

Lemma app_eq_length (A : Type) (a c b d : list A) :
  a ++ b = c ++ d -> List.length a = List.length c -> a = c /\ b = d.
Proof.
  revert c; induction a as [|x a IH]; intros [|y c] E Hl;
    try discriminate Hl; cbn [app] in E.
  - now split.
  - injection E as -> E; injection Hl as Hl.
    destruct (IH _ E Hl) as [-> ->]; now split.
Qed.

Lemma spaces_no_newline (s : str) :
  forallb (cls_ok (Ch " ")) s = true -> no_newline s = true.
Proof.
  unfold no_newline; rewrite !forallb_forall; intros H a Ha.
  specialize (H a Ha); cbn in H; apply chr_eqb_eq in H; now subst a.
Qed.

Lemma runtime_split_form (line P X N : str) :
  runtime_split line P X N -> runtime_form line X N.
Proof.
  intros (d & fr & Q & S & -> & Hd & Hf & HP & HQ & HS & HN & ->).
  exists P, (chars " "), d, fr, (chars " "), Q, S, [].
  repeat split; auto.
  repeat (rewrite <- app_assoc; cbn [app chars]); now rewrite app_nil_r.
Qed.

(** A line with a reading ends with a digit. *)
Lemma runtime_split_end (line P X N : str) :
  runtime_split line P X N ->
  exists body a, line = body ++ [a] /\ latin is_digit a = true.
Proof.
  intros (d & fr & Q & S & -> & _ & _ & _ & _ & _ & HN & ->).
  apply all_digits_iff in HN as [Hne Hall].
  destruct (exists_last Hne) as (N' & a & ->).
  rewrite forallb_app in Hall; apply andb_true_iff in Hall as [_ Ha].
  cbn in Ha; rewrite andb_true_r in Ha.
  exists (P ++ chars " " ++ (d ++ fr) ++ chars " ms " ++ Q ++ chars "ms"
            ++ S ++ N'), a; split; [|exact Ha].
  repeat (rewrite <- app_assoc; cbn [app chars]); reflexivity.
Qed.

(** What the tail of the pattern matches, and what it captures. *)
Lemma runtime_tail_form (v : str) (m : caps) :
  run runtime_tail v [] accept = Some m ->
  exists S1 d fr S2 Q S3 N tail,
    m = [(2, N); (1, d ++ fr)] /\
    all_decimals d = true /\ is_fraction fr = true /\ all_digits N = true /\
    all_spaces S1 = true /\ all_spaces S2 = true /\ all_spaces S3 = true /\
    no_newline Q = true /\ (tail = [] \/ tail = [newline]) /\
    v = S1 ++ (d ++ fr) ++ chars " ms" ++ S2 ++ Q ++ chars "ms"
          ++ S3 ++ N ++ tail.
Proof.
  intros H.
  apply run_sound in H as (u & t & c' & -> & Hd & Hk).
  injection Hk as <-.
  unfold runtime_tail, runtime_rest, number_re in Hd; simpl in Hd.
  destruct Hd as (S1 & r2 & c2 & -> & (H11 & H12 & ->) &
                  X & r3 & c3 & -> &
                  (c0 & (d & fr & c4 & -> & (Hd1 & Hd2 & ->) & Hfr) & ->) &
                  L1 & r4 & c5 & -> & (-> & ->) &
                  S2 & r5 & c6 & -> & (H21 & H22 & ->) &
                  Q & r6 & c7 & -> & (HQ & ->) &
                  L2 & r7 & c8 & -> & (-> & ->) &
                  S3 & r8 & c9 & -> & (H31 & H32 & ->) &
                  N & r9 & c10 & -> &
                  (c11 & (HN1 & HN2 & ->) & ->) & (-> & Ht & ->)).
  assert (Hf : is_fraction fr = true /\ c0 = []).
  { destruct Hfr as [[-> ->]|Hfr]; [now split|].
    destruct Hfr as (u1 & u2 & c1 & -> & (-> & ->) & Hne & Hall & ->).
    split; [|reflexivity]; simpl.
    apply all_decimals_iff; now split. }
  destruct Hf as [Hf ->].
  exists S1, d, fr, S2, Q, S3, N, t.
  repeat split; auto;
    try (apply all_digits_iff; now split);
    try (apply all_decimals_iff; now split);
    try (apply all_spaces_iff; now split).
  repeat (rewrite <- app_assoc; simpl); reflexivity.
Qed.

(** A point of the line at which the tail of the pattern matches gives a
    reading that starts there or later. *)
Lemma runtime_tail_split (line u v : str) (m : caps) :
  line = u ++ v -> no_newline u = true ->
  (exists body a, line = body ++ [a] /\ latin is_digit a = true) ->
  run runtime_tail v [] accept = Some m ->
  exists P X N,
    runtime_split line P X N /\ List.length u <= List.length P /\
    m = [(2, N); (1, X)].
Proof.
  intros El Hu (body & a & Eb & Ha) Hm.
  apply runtime_tail_form in Hm
    as (S1 & d & fr & S2 & Q & S3 & N & tail & -> & Hd & Hf & HN
        & H1 & H2 & H3 & HQ & Ht & ->).
  assert (tail = []) as ->.
  { destruct Ht as [->| ->]; [reflexivity|exfalso].
    rewrite El in Eb.
    replace (u ++ S1 ++ (d ++ fr) ++ chars " ms" ++ S2 ++ Q ++ chars "ms"
               ++ S3 ++ N ++ [newline])
      with ((u ++ S1 ++ (d ++ fr) ++ chars " ms" ++ S2 ++ Q ++ chars "ms"
               ++ S3 ++ N) ++ [newline]) in Eb
      by (repeat (rewrite <- app_assoc; cbn [app]); reflexivity).
    apply app_inj_tail in Eb as [_ <-]; discriminate Ha. }
  apply all_spaces_iff in H1 as [H11 H12], H2 as [H21 H22].
  destruct (run_of_char_last _ H11 H12) as (T1 & ->).
  destruct S2 as [|b T2]; [congruence|].
  cbn [forallb] in H22; apply andb_true_iff in H22 as [Hb H22].
  cbn in Hb; apply chr_eqb_eq in Hb; subst b.
  rewrite forallb_app in H12; apply andb_true_iff in H12 as [H12 _].
  exists (u ++ T1), (d ++ fr), N; split; [|split].
  - exists d, fr, (T2 ++ Q), S3; repeat split; auto.
    + unfold no_newline; rewrite forallb_app; apply andb_true_iff.
      split; [exact Hu|exact (spaces_no_newline _ H12)].
    + unfold no_newline; rewrite forallb_app; apply andb_true_iff.
      split; [exact (spaces_no_newline _ H22)|exact HQ].
    + rewrite El, app_nil_r.
      repeat (rewrite <- app_assoc; cbn [app chars]); reflexivity.
  - rewrite length_app; lia.
  - reflexivity.
Qed.

Lemma runtime_match_star (line : str) :
  re_match runtime_pattern line
  = star Dot line (fun v => run runtime_tail v [] accept).
Proof. reflexivity. Qed.

(** The runtime pattern captures the number of the last reading. *)
Lemma runtime_match_split (line P X N : str) :
  runtime_split line P X N ->
  exists P0 X0,
    runtime_split line P0 X0 N /\ last_split line P0 /\
    re_match runtime_pattern line = Some [(2, N); (1, X0)].
Proof.
  intros Hs.
  pose proof (@runtime_form_match line X N
                (@runtime_split_form line P X N Hs)) as Hne.
  destruct (re_match runtime_pattern line) as [m|] eqn:Em; [|congruence].
  clear Hne; pose proof Em as Em'.
  rewrite runtime_match_star in Em'.
  apply star_max_sound in Em' as (u & v & El & Hu & Hk & Hmax).
  destruct (@runtime_tail_split line u v m El Hu
              (@runtime_split_end line P X N Hs) Hk)
    as (P0 & X0 & N0 & Hs0 & Hl & ->).
  assert (N0 = N) as ->
    by exact (@runtime_form_integer_unique line X0 N0 X N
                (@runtime_split_form line P0 X0 N0 Hs0)
                (@runtime_split_form line P X N Hs)).
  exists P0, X0; split; [exact Hs0|]; split; [|reflexivity].
  intros P' X' N' Hs'.
  destruct (Nat.le_gt_cases (List.length P') (List.length P0)) as [H|H];
    [exact H|exfalso].
  destruct Hs' as (d & fr & Q & S & -> & Hd & Hf & HP' & HQ & HS & HN & E).
  assert (Hn : run runtime_tail
                   (chars " " ++ (d ++ fr) ++ chars " ms " ++ Q
                      ++ chars "ms" ++ S ++ N') [] accept = None).
  { apply (Hmax P'); [exact E|exact HP'|lia]. }
  rewrite runtime_tail_match in Hn by assumption; discriminate Hn.
Qed.

(** The number of a reading that starts where another one does is the
    same. *)
Lemma runtime_split_same_start (line P X N X' N' : str) :
  runtime_split line P X N -> runtime_split line P X' N' -> X = X'.
Proof.
  intros (d & fr & Q & S & -> & Hd & Hf & _ & _ & _ & _ & ->)
         (d' & fr' & Q' & S' & -> & Hd' & Hf' & _ & _ & _ & _ & E).
  apply app_inv_head in E; cbn [chars app] in E.
  injection E as E.
  apply (first_run_unique (fun a => negb (cls_ok (Ch " ") a))) in E
    as [E _]; auto.
  - apply forallb_forall; intros a Ha.
    now rewrite (number_chars d fr a Hd Hf Ha).
  - apply forallb_forall; intros a Ha.
    now rewrite (number_chars d' fr' a Hd' Hf' Ha).
Qed.

Lemma last_split_unique (line P X N P' X' N' : str) :
  runtime_split line P X N -> last_split line P ->
  runtime_split line P' X' N' -> last_split line P' ->
  P = P' /\ X = X'.
Proof.
  intros Hs Hl Hs' Hl'.
  pose proof (Hl _ _ _ Hs') as H1.
  pose proof (Hl' _ _ _ Hs) as H2.
  assert (P = P') as <-.
  { destruct Hs as (d & fr & Q & S & _ & _ & _ & _ & _ & _ & _ & E).
    destruct Hs' as (d' & fr' & Q' & S' & _ & _ & _ & _ & _ & _ & _ & E').
    rewrite E in E'.
    apply app_eq_length in E' as [E' _]; [exact E'|lia]. }
  split; [reflexivity|].
  exact (@runtime_split_same_start line P X N X' N' Hs Hs').
Qed.

Lemma quotient_cases (X N : str) (x n : float) :
  py_float (Some X) = Ok x -> py_float (Some N) = Ok n ->
  quotient X N = if PrimFloat.eqb n 0 then Raise ZeroDivisionError
                 else Ok (Some (x / n)%float).
Proof.
  intros Hx Hn; unfold quotient; rewrite Hx, Hn; cbn [bind].
  unfold float_div; now destruct (PrimFloat.eqb n 0).
Qed.

Lemma match_runtime_quotient (line X N : str) :
  re_match runtime_pattern line = Some [(2, N); (1, X)] ->
  match_runtime line = quotient X N.
Proof.
  intros H; unfold match_runtime, quotient; now rewrite H.
Qed.

(** C2, as the code has it: a line may be read as a runtime line
    [P X ms Q ms N] in more than one way, and the runtime matcher takes the
    reading whose number stands latest in the line.  On every line that has
    a reading with the trailing integer [N], there is a last reading, with
    a number [X0] and the same [N]; the matcher returns
    [float(X0) / float(N)], and raises [ZeroDivisionError] when [float(N)]
    is zero.  The numerator is the [X] of a given reading when that reading
    is the last one; it is not the first number of the line in general. *)
Theorem match_runtime_last_number (line P X N : str) :
  runtime_split line P X N ->
  (exists P0 X0 x n,
      runtime_split line P0 X0 N /\ last_split line P0 /\
      List.length P <= List.length P0 /\
      py_float (Some X0) = Ok x /\ py_float (Some N) = Ok n /\
      match_runtime line
      = if PrimFloat.eqb n 0 then Raise ZeroDivisionError
        else Ok (Some (x / n)%float))
  /\ (last_split line P -> match_runtime line = quotient X N).
Proof.
  intros Hs.
  destruct (@runtime_match_split line P X N Hs) as (P0 & X0 & Hs0 & Hl0 & Em).
  split.
  - destruct (@runtime_form_number line X0 N
                (@runtime_split_form line P0 X0 N Hs0))
      as (x & n & Hx & Hn).
    exists P0, X0, x, n.
    split; [exact Hs0|]; split; [exact Hl0|]; split; [exact (Hl0 _ _ _ Hs)|].
    split; [exact Hx|]; split; [exact Hn|].
    rewrite (@match_runtime_quotient line X0 N Em); now apply quotient_cases.
  - intros Hl.
    destruct (@last_split_unique line P X N P0 X0 N Hs Hl Hs0 Hl0) as [_ ->].
    now apply match_runtime_quotient.
Qed.

(** ** A reading without a later "ms" is the last one *)

Lemma app_eq_longer (A : Type) (a b c d : list A) :
  a ++ b = c ++ d -> List.length a <= List.length c ->
  exists t, c = a ++ t /\ b = t ++ d.
Proof.
  revert c; induction a as [|x a IH]; intros c E Hl; cbn [app] in *.
  - exists c; now split.
  - destruct c as [|y c]; [cbn in Hl; lia|].
    cbn [app] in E; injection E as -> E.
    destruct (IH c E) as (t & -> & ->); [cbn in Hl; lia|].
    exists t; now split.
Qed.

(** Where a run of a class ends, a later character outside of the class
    stands at the end of the run or after it. *)
Lemma run_prefix_cases (p : chr -> bool) :
  forall X x r t x' r',
    X ++ x :: r = t ++ x' :: r' ->
    forallb p X = true -> p x' = false ->
    exists t', t = X ++ t' /\ x :: r = t' ++ x' :: r'.
Proof.
  induction X as [|a X IH]; intros x r t x' r' E HX Hx'; cbn [app] in *.
  - exists t; now split.
  - cbn [forallb] in HX; apply andb_true_iff in HX as [Ha HX].
    destruct t as [|b t]; cbn [app] in E.
    + injection E as -> _; congruence.
    + injection E as -> E.
      destruct (IH _ _ _ _ _ E HX Hx') as (t' & -> & E').
      exists t'; now split.
Qed.

Lemma no_ms_last_split (P d fr Q S N : str) :
  no_newline P = true -> all_decimals d = true -> is_fraction fr = true ->
  no_newline Q = true -> occurs (chars "ms") Q = false ->
  all_spaces S = true -> all_digits N = true ->
  last_split (P ++ chars " " ++ (d ++ fr) ++ chars " ms " ++ Q
                ++ chars "ms" ++ S ++ N) P.
Proof.
  intros HP Hd Hf HQ Hms HS HN P' X' N' Hs'.
  destruct (Nat.le_gt_cases (List.length P') (List.length P)) as [H|H];
    [exact H|exfalso].
  destruct Hs' as (d' & fr' & Q' & S' & -> & Hd' & Hf' & _ & _ & _ & _ & E).
  set (v' := chars " " ++ (d' ++ fr') ++ chars " ms " ++ Q' ++ chars "ms"
               ++ S' ++ N') in *.
  assert (H2 : 2 <= count_ms v').
  { subst v'.
    replace (chars " " ++ (d' ++ fr') ++ chars " ms " ++ Q' ++ chars "ms"
               ++ S' ++ N')
      with ((chars " " ++ (d' ++ fr') ++ chars " ")
              ++ Latin "m" :: Latin "s" :: (chars " " ++ Q')
              ++ Latin "m" :: Latin "s" :: (S' ++ N'))
      by (repeat (rewrite <- app_assoc; cbn [app chars]); reflexivity).
    apply count_ms_two. }
  replace (P ++ chars " " ++ (d ++ fr) ++ chars " ms " ++ Q ++ chars "ms"
             ++ S ++ N)
    with ((P ++ chars " ")
            ++ (d ++ fr) ++ Latin " "
            :: (Latin "m" :: Latin "s"
                  :: (chars " " ++ Q ++ chars "ms" ++ S ++ N))) in E
    by (repeat (rewrite <- app_assoc; cbn [app chars]); reflexivity).
  apply app_eq_longer in E as (t & _ & E);
    [|rewrite length_app; cbn [List.length chars]; cbn; lia].
  subst v'; cbn [chars app] in E.
  apply (run_prefix_cases (fun a => negb (cls_ok (Ch " ") a))) in E
    as (t' & _ & E); [| |reflexivity].
  2:{ apply forallb_forall; intros a Ha.
      now rewrite (number_chars d fr a Hd Hf Ha). }
  apply all_decimals_iff in Hd' as [Hne' Hall'].
  destruct d' as [|a' d']; [congruence|].
  cbn [forallb] in Hall'; apply andb_true_iff in Hall' as [Ha' _].
  destruct t' as [|b1 t']; cbn [app] in E.
  { injection E as E; subst a'; discriminate Ha'. }
  injection E as _ E.
  destruct t' as [|b2 t']; cbn [app] in E; [discriminate E|].
  injection E as _ E.
  match type of E with
  | _ = ?u ++ ?v => pose proof (count_ms_suffix u v) as Hle
  end.
  rewrite <- E in Hle.
  change (count_ms (Latin "s" :: Latin " " :: Q ++ Latin "m" :: Latin "s"
                      :: S ++ N))
    with (count_ms (chars " " ++ Q ++ chars "ms" ++ S ++ N)) in Hle.
  rewrite (count_ms_rest Q S N Hms HS HN) in Hle.
  apply (Nat.lt_irrefl 1), (Nat.lt_le_trans _ _ _ H2); exact Hle.
Qed.

Lemma match_runtime_witness :
  match_runtime (chars "foo 12.0 ms bar 4 ms 2") = Ok (Some 6%float).
Proof.
  refine (proj2 (@match_runtime_last_number
                   (chars "foo 12.0 ms bar 4 ms 2")
                   (chars "foo") (chars "12.0") (chars "2") _) _).
  - exists (chars "12"), (chars ".0"), (chars "bar 4 "), (chars " ").
    repeat split; reflexivity.
  - exact (@no_ms_last_split (chars "foo") (chars "12") (chars ".0")
             (chars "bar 4 ") (chars " ") (chars "2")
             eq_refl eq_refl eq_refl eq_refl eq_refl eq_refl eq_refl).
Defined.

(** The number of the last reading may be written in any script: here with
    the Arabic-Indic digit three, U+0663, after the number 1. *)
Example wide_digit_last_reading :
  match_runtime (chars "a 1 ms " ++ [Wide 1635 (Some 3) false]
                   ++ chars " ms b ms 3")
  = Ok (Some 1%float)
  /\ last_split (chars "a 1 ms " ++ [Wide 1635 (Some 3) false]
                   ++ chars " ms b ms 3")
                (chars "a 1 ms").
Proof.
  split; [reflexivity|].
  exact (@no_ms_last_split (chars "a 1 ms") [Wide 1635 (Some 3) false] []
           (chars "b ") (chars " ") (chars "3")
           eq_refl eq_refl eq_refl eq_refl eq_refl eq_refl eq_refl).
Qed.

(** On the line with two numbers the last reading is the one of the second
    number. *)
Example two_numbers_last_reading :
  runtime_split two_numbers_line (chars "a") (chars "1") (chars "3")
  /\ runtime_split two_numbers_line (chars "a 1 ms") (chars "2") (chars "3")
  /\ last_split two_numbers_line (chars "a 1 ms").
Proof.
  split; [|split].
  - exists (chars "1"), [], (chars "2 ms b "), (chars " ").
    repeat split; reflexivity.
  - exists (chars "2"), [], (chars "b "), (chars " ").
    repeat split; reflexivity.
  - exact (@no_ms_last_split (chars "a 1 ms") (chars "2") []
             (chars "b ") (chars " ") (chars "3")
             eq_refl eq_refl eq_refl eq_refl eq_refl eq_refl eq_refl).
Qed.

(** ** A test for the last reading *)

Lemma later_reading_none (t v : str) :
  later_reading (t ++ v) = false -> v <> [] ->
  run runtime_tail v [] accept = None.
Proof.
  induction t as [|a t IH]; cbn [app]; intros H Hv.
  - destruct v as [|b v]; [congruence|].
    cbn [later_reading] in H.
    destruct (run runtime_tail (b :: v) [] accept); [discriminate H|].
    reflexivity.
  - cbn [later_reading] in H.
    destruct (run runtime_tail (a :: t ++ v) [] accept); [discriminate H|].
    now apply IH.
Qed.

(** A reading is the last one when the tail of the pattern matches at no
    later position of the line, which a computation decides. *)
Lemma no_later_last_split (P w : str) :
  later_reading w = false -> last_split (P ++ chars " " ++ w) P.
Proof.
  intros Hw P' X' N' Hs'.
  destruct (Nat.le_gt_cases (List.length P') (List.length P)) as [H|H];
    [exact H|exfalso].
  destruct Hs' as (d & fr & Q & S & -> & Hd & Hf & _ & HQ & HS & HN & E).
  rewrite app_assoc in E.
  apply app_eq_longer in E as (t & _ & E);
    [|rewrite length_app; cbn [List.length chars]; lia].
  rewrite E in Hw.
  apply later_reading_none in Hw; [|discriminate].
  rewrite runtime_tail_match in Hw by assumption.
  discriminate Hw.
Qed.

(** A line whose text between the two "ms" holds a further "ms": the number
    in front of it is still the last one that can be read as the runtime. *)
Example runtime_with_inner_ms :
  last_split (chars "foo 12.0 ms bar ms baz 4 ms 2") (chars "foo")
  /\ match_runtime (chars "foo 12.0 ms bar ms baz 4 ms 2")
     = Ok (Some 6%float).
Proof.
  split; [|reflexivity].
  exact (@no_later_last_split (chars "foo")
           (chars "12.0 ms bar ms baz 4 ms 2") eq_refl).
Qed.

(** ** Lines that both patterns match *)




(** ** geo_mean *)




